(** * frontend-react-eventos: the event list of [src/App.js]

    A shallow embedding of the data transformations and state updates of the
    [App] component: the name/date filter, the date sort, the average
    rating, and the handlers that update the component state after an HTTP
    call.

    - JavaScript values are modelled with the optionality the source itself
      tests for: a value tested with [x && ...], [!x] or [x || d] is an
      [option] ([None] is [null]/[undefined]); an entry of an array that
      comes from a response body may be [null]; reading a property from
      [null]/[undefined] raises a [TypeError].
    - Numbers are IEEE-754 binary64 values ([spec_float] with [prec = 53] and
      [emax = 1024]); [+], [/] and [toFixed(1)] are modelled exactly.
    - [toLowerCase], [parseISO], [new Date(s)] and the text of engine errors
      are parameters (class [Host]).
    - An HTTP call is modelled by its outcome. The two create handlers are
      [async]: the part after the call runs when the response arrives, with
      the [events] and [selectedEvent] of the render that submitted the form
      and the setters of the component; other updates, and the responses to
      other submissions, may come in between. The body sent with a request
      has no effect on the state and is not modelled.

    The first part holds the definitions, the second the properties. *)

From Stdlib Require Import ZArith Lia List Bool String Ascii.
From Stdlib Require Import Permutation Sorted.
From Stdlib Require Import SpecFloat DecimalString.
Import ListNotations.

Local Open Scope string_scope.
Local Open Scope Z_scope.

(** ** Exceptions and results *)

(** What a [throw] carries: the [TypeError] the engine raises when
    [property] is read from [null] or [undefined] or called on a value that
    lacks it, or an error object with a message ([new Error(msg)], the
    rejection of [fetch] or of [json()]). *)
Inductive exn : Type :=
| TypeError (property : string)
| Error (message : string).

Inductive result (A : Type) : Type :=
| Ok (v : A)
| Throw (e : exn).
Arguments Ok {A} v.
Arguments Throw {A} e.

Definition bind {A B : Type} (r : result A) (k : A -> result B) : result B :=
  match r with
  | Ok v => k v
  | Throw e => Throw e
  end.

Notation "x <- r ;; k" := (bind r (fun x => k))
  (at level 61, r at next level, right associativity).

(** ** Host functions

    Functions of the JavaScript engine and of [date-fns] that the component
    calls; they are parameters of the model. A time value is a number of
    milliseconds since the epoch, [None] being an Invalid Date. *)
Class Host : Type := {
  (** [String.prototype.toLowerCase] *)
  toLowerCase : string -> string;
  (** [parseISO(s)] of date-fns, as the time value of the date it returns *)
  parseISO : string -> option Z;
  (** [new Date(s)], as the time value of the date it builds *)
  newDate : string -> option Z;
  (** the [message] of the [TypeError] raised for a property *)
  typeErrorMessage : string -> string
}.

(** [err.message] in a [catch (err)] clause. *)
Definition message `{Host} (e : exn) : string :=
  match e with
  | TypeError property => typeErrorMessage property
  | Error m => m
  end.

(** ** Strings *)

(** ToBoolean of a string: only the empty string is falsy. *)
Definition truthy_string (s : string) : bool :=
  match s with
  | EmptyString => false
  | String _ _ => true
  end.

(** ToBoolean of a possibly absent string property. *)
Definition truthy_opt_string (o : option string) : bool :=
  match o with
  | None => false
  | Some s => truthy_string s
  end.

(** [s.includes(t)]: [t] occurs in [s] as a substring. *)
Fixpoint includes (s t : string) : bool :=
  String.prefix t s ||
  match s with
  | EmptyString => false
  | String _ s' => includes s' t
  end.

(** ** Numbers *)

Definition prec : Z := 53.
Definition emax : Z := 1024.

Definition number : Type := spec_float.

(** The binary64 value of an integer literal or of an array length. *)
Definition of_Z (z : Z) : number := binary_normalize prec emax z 0 false.

Definition add (x y : number) : number := SFadd prec emax x y.
Definition div (x y : number) : number := SFdiv prec emax x y.

(** ToBoolean of a number: [+0], [-0] and [NaN] are falsy. *)
Definition truthy_number (x : number) : bool :=
  match x with
  | S754_zero _ | S754_nan => false
  | _ => true
  end.

(** ** Data model: the JSON records of the events API *)

(** An identifier as [===] sees it: a scalar of JSON, or [undefined] for a
    property that is absent. Strict equality never coerces, and [null] is
    strictly equal to [null]. *)
Inductive Id : Type :=
| IdUndefined
| IdNull
| IdBool (b : bool)
| IdNum (n : Z)
| IdStr (s : string).

Definition Id_eq_dec (a b : Id) : {a = b} + {a <> b}.
Proof.
  decide equality; [apply Bool.bool_dec | apply Z.eq_dec | apply string_dec].
Defined.

(** [a === b] on identifiers. *)
Definition strict_eq (a b : Id) : bool :=
  if Id_eq_dec a b then true else false.

Module Comment.
Record t : Type := mk {
  id : Id;
  nome_usuario : option string;
  comentario : option string;
  classificacao : option number;
  id_evento : Id
}.
End Comment.

Module Event.
Record t : Type := mk {
  id : Id;
  nome : option string;
  data : option string;
  duracao_qtd : option Z;
  duracao_tipo : option string;
  (** [None]: the property is absent; an entry [None] is a [null] entry *)
  comentarios : option (list (option Comment.t))
}.

(** [{...event, comentarios: cs}] *)
Definition with_comentarios (event : t) (cs : list (option Comment.t)) : t :=
  mk (id event) (nome event) (data event) (duracao_qtd event)
     (duracao_tipo event) (Some cs).
End Event.

(** An entry of an events array: [None] is [null]. *)
Definition value : Type := option Event.t.

(** ** The filter (App.js, [filteredEvents]) *)

Section Filter.
Context `{Host}.

(** [isEqual(a, b)] of date-fns: the two time values are the same number;
    an Invalid Date equals nothing. *)
Definition isEqual (a b : option Z) : bool :=
  match a, b with
  | Some x, Some y => x =? y
  | _, _ => false
  end.

(** [!searchTerm || (event && event.nome &&
       event.nome.toLowerCase().includes(searchTerm.toLowerCase()))],
    as the boolean [filter] reads from it. *)
Definition matchesSearch (searchTerm : string) (event : value) : bool :=
  negb (truthy_string searchTerm) ||
  match event with
  | None => false
  | Some e =>
      match Event.nome e with
      | None => false
      | Some nome =>
          truthy_string nome &&
          includes (toLowerCase nome) (toLowerCase searchTerm)
      end
  end.

(** [event && event.data] as a condition. *)
Definition has_data (event : value) : option string :=
  match event with
  | None => None
  | Some e =>
      match Event.data e with
      | Some d => if truthy_string d then Some d else None
      | None => None
      end
  end.

(** The [let matchesDateRange = true; if (...) {...}] block. *)
Definition matchesDateRange (dateFilter : string) (event : value) : bool :=
  match has_data event with
  | Some d =>
      let eventDate := parseISO d in
      if truthy_string dateFilter then isEqual eventDate (parseISO dateFilter)
      else if truthy_string dateFilter then false
      else true
  | None => true
  end.

Definition keep (searchTerm dateFilter : string) (event : value) : bool :=
  matchesSearch searchTerm event && matchesDateRange dateFilter event.

Definition filteredEvents (events : list value)
    (searchTerm dateFilter : string) : list value :=
  filter (keep searchTerm dateFilter) events.
End Filter.

(** ** The sort (App.js, [sortedEvents]) *)

Section Sort.
Context `{Host}.

(** [a.data ? new Date(a.data) : 0], as the number the subtraction reads
    from it: a time value, [None] being [NaN]. Reading [data] from a
    [null] entry raises. *)
Definition dateOf (a : value) : result (option Z) :=
  match a with
  | None => Throw (TypeError "data")
  | Some e =>
      match Event.data e with
      | Some d => if truthy_string d then Ok (newDate d) else Ok (Some 0)
      | None => Ok (Some 0)
      end
  end.

(** [dateB - dateA]. Time values are integers below 2^53 in magnitude, so
    the binary64 difference has the sign of the exact difference, and the
    sign is all that [sort] reads. *)
Definition minus (x y : option Z) : option Z :=
  match x, y with
  | Some a, Some b => Some (a - b)
  | _, _ => None
  end.

(** The comparator [(a, b) => { ...; return dateB - dateA; }]. *)
Definition compareFn (a b : value) : result (option Z) :=
  dateA <- dateOf a ;;
  dateB <- dateOf b ;;
  Ok (minus dateB dateA).

(** SortCompare: a [NaN] from the comparator counts as [+0]. *)
Definition sortCompare (a b : value) : result Z :=
  v <- compareFn a b ;;
  Ok (match v with Some z => z | None => 0 end).

(** [Array.prototype.sort] is stable; it is modelled by the stable
    insertion of each element into the sorted rest: [x], which came before
    every element of [l], goes before the first [y] it does not follow. *)
Fixpoint insert (x : value) (l : list value) : result (list value) :=
  match l with
  | [] => Ok [x]
  | y :: l' =>
      v <- sortCompare x y ;;
      if 0 <? v then (r <- insert x l' ;; Ok (y :: r))
      else Ok (x :: y :: l')
  end.

Fixpoint sort (l : list value) : result (list value) :=
  match l with
  | [] => Ok []
  | x :: l' => s <- sort l' ;; insert x s
  end.

Definition sortedEvents (events : list value)
    (searchTerm dateFilter : string) : result (list value) :=
  sort (filteredEvents events searchTerm dateFilter).
End Sort.

(** ** The average rating (App.js, [calculateAverageRating]) *)

(** A string built by [toFixed]: a literal, or the digits that
    [Number.prototype.toString] gives for a number of magnitude at least
    1e21, behind an optional minus sign. *)
Inductive text : Type :=
| Lit (s : string)
| NumberToString (negative : bool) (x : number).

Definition decimal (n : Z) : string :=
  NilZero.string_of_uint (N.to_uint (Z.to_N n)).

(** The digits of [n] with a point before the last one: [n = 30] is
    ["3.0"], [n = 3] is ["0.3"]. *)
Definition tenths (n : Z) : string :=
  decimal (n / 10) ++ "." ++ decimal (n mod 10).

(** [x.toFixed(1)]: for a finite [x] below 1e21 in magnitude, the integer
    [n] for which [n / 10 - |x|] is closest to zero, the larger one when
    there are two; [|x|] is [m * 2^e] exactly. *)
Definition toFixed1 (x : number) : text :=
  match x with
  | S754_nan => Lit "NaN"
  | S754_infinity s => Lit (if s then "-Infinity" else "Infinity")
  | S754_zero _ => Lit "0.0"
  | S754_finite s m e =>
      let sign := if s then "-" else "" in
      if 0 <=? e then
        if 10 ^ 21 <=? Z.pos m * 2 ^ e
        then NumberToString s (S754_finite false m e)
        else Lit (sign ++ tenths (10 * Z.pos m * 2 ^ e))
      else
        if 10 ^ 21 * 2 ^ (- e) <=? Z.pos m
        then NumberToString s (S754_finite false m e)
        else Lit (sign ++ tenths ((20 * Z.pos m + 2 ^ (- e)) / 2 ^ (1 - e)))
  end.

(** [array.reduce(f, acc)] with a callback that may raise. *)
Fixpoint reduce {A B : Type} (f : B -> A -> result B) (l : list A) (acc : B)
    : result B :=
  match l with
  | [] => Ok acc
  | x :: l' => acc' <- f acc x ;; reduce f l' acc'
  end.

(** [event.comentarios], which raises on a [null] event. *)
Definition get_comentarios (event : value)
    : result (option (list (option Comment.t))) :=
  match event with
  | None => Throw (TypeError "comentarios")
  | Some e => Ok (Event.comentarios e)
  end.

(** [x.length], which raises on an absent array. *)
Definition get_length {A : Type} (x : option (list A)) : result Z :=
  match x with
  | None => Throw (TypeError "length")
  | Some l => Ok (Z.of_nat (List.length l))
  end.

(** [com.classificacao], which raises on a [null] entry. *)
Definition get_classificacao (com : option Comment.t) : result (option number) :=
  match com with
  | None => Throw (TypeError "classificacao")
  | Some c => Ok (Comment.classificacao c)
  end.

(** [x || 0] on a possibly absent number. *)
Definition or_zero (x : option number) : number :=
  match x with
  | Some r => if truthy_number r then r else of_Z 0
  | None => of_Z 0
  end.

(** [a || b] with its short circuit, on conditions that may raise. *)
Definition or_else (a b : result bool) : result bool :=
  x <- a ;; if x then Ok true else b.

Definition is_null {A : Type} (x : option A) : bool :=
  match x with
  | None => true
  | Some _ => false
  end.

(** [(acc, com) => acc + (com.classificacao || 0)] *)
Definition accumulate (acc : number) (com : option Comment.t) : result number :=
  r <- get_classificacao com ;;
  Ok (add acc (or_zero r)).

Definition calculateAverageRating (event : value) : result text :=
  guard <-
    or_else (Ok (is_null event))
      (or_else (cs <- get_comentarios event ;; Ok (is_null cs))
               (cs <- get_comentarios event ;;
                n <- get_length cs ;;
                Ok (n =? 0))) ;;
  if guard then Ok (Lit "N/A")
  else
    cs <- get_comentarios event ;;
    total <- match cs with
             | None => Throw (TypeError "reduce")
             | Some l => reduce accumulate l (of_Z 0)
             end ;;
    cs' <- get_comentarios event ;;
    n <- get_length cs' ;;
    Ok (toFixed1 (div total (of_Z n))).

(** ** HTTP outcomes

    What [await fetch(...)] followed by [await response.json()] can give:
    [fetch] rejects, or it resolves to a response with a status whose body
    parses or fails to parse. *)
Inductive body (A : Type) : Type :=
| Json (v : A)
| JsonFails (e : exn).
Arguments Json {A} v.
Arguments JsonFails {A} e.

Inductive fetched (A : Type) : Type :=
| Rejects (e : exn)
| Responds (status : Z) (b : body A).
Arguments Rejects {A} e.
Arguments Responds {A} status b.

(** [response.ok]: the status is in the range 200-299. *)
Definition ok (status : Z) : bool := (200 <=? status) && (status <=? 299).

(** [if (!response.ok) throw new Error(msg); return await response.json()] *)
Definition receive {A : Type} (failure : string) (o : fetched A) : result A :=
  match o with
  | Rejects e => Throw e
  | Responds status b =>
      if negb (ok status) then Throw (Error failure)
      else match b with
           | Json v => Ok v
           | JsonFails e => Throw e
           end
  end.

(** ** Component state (the [useState] cells of [App]) *)

Inductive field : Type :=
| Num (n : Z)
| Str (s : string).

Module NewEvent.
Record t : Type := mk {
  nome : string;
  data : string;
  duracao_qtd : string;
  duracao_tipo : string
}.
Definition initial : t := mk "" "" "" "dias".
End NewEvent.

Module NewComment.
Record t : Type := mk {
  nome_usuario : string;
  comentario : string;
  classificacao : field
}.
Definition initial : t := mk "" "" (Num 3).
End NewComment.

Record State : Type := mkState {
  events : list value;
  selectedEvent : value;
  loading : bool;
  error : option string;
  (** [useState(null)]: [IdNull] until a row is expanded *)
  expandedEventId : Id;
  searchTerm : string;
  dateFilter : string;
  showNewEventForm : bool;
  (** [useState(null)]: [IdNull] until a comment form is opened *)
  showNewCommentForm : Id;
  newEvent : NewEvent.t;
  newComment : NewComment.t
}.

Definition initialState : State :=
  mkState [] None true None IdNull "" "" false IdNull
          NewEvent.initial NewComment.initial.

Definition setEvents (x : list value) (s : State) : State :=
  mkState x (selectedEvent s) (loading s) (error s) (expandedEventId s)
          (searchTerm s) (dateFilter s) (showNewEventForm s)
          (showNewCommentForm s) (newEvent s) (newComment s).

Definition setSelectedEvent (x : value) (s : State) : State :=
  mkState (events s) x (loading s) (error s) (expandedEventId s)
          (searchTerm s) (dateFilter s) (showNewEventForm s)
          (showNewCommentForm s) (newEvent s) (newComment s).

Definition setLoading (x : bool) (s : State) : State :=
  mkState (events s) (selectedEvent s) x (error s) (expandedEventId s)
          (searchTerm s) (dateFilter s) (showNewEventForm s)
          (showNewCommentForm s) (newEvent s) (newComment s).

Definition setError (x : string) (s : State) : State :=
  mkState (events s) (selectedEvent s) (loading s) (Some x)
          (expandedEventId s) (searchTerm s) (dateFilter s)
          (showNewEventForm s) (showNewCommentForm s) (newEvent s)
          (newComment s).

Definition setExpandedEventId (x : Id) (s : State) : State :=
  mkState (events s) (selectedEvent s) (loading s) (error s) x
          (searchTerm s) (dateFilter s) (showNewEventForm s)
          (showNewCommentForm s) (newEvent s) (newComment s).

Definition setSearchTerm (x : string) (s : State) : State :=
  mkState (events s) (selectedEvent s) (loading s) (error s)
          (expandedEventId s) x (dateFilter s) (showNewEventForm s)
          (showNewCommentForm s) (newEvent s) (newComment s).

Definition setDateFilter (x : string) (s : State) : State :=
  mkState (events s) (selectedEvent s) (loading s) (error s)
          (expandedEventId s) (searchTerm s) x (showNewEventForm s)
          (showNewCommentForm s) (newEvent s) (newComment s).

Definition setShowNewEventForm (x : bool) (s : State) : State :=
  mkState (events s) (selectedEvent s) (loading s) (error s)
          (expandedEventId s) (searchTerm s) (dateFilter s) x
          (showNewCommentForm s) (newEvent s) (newComment s).

Definition setShowNewCommentForm (x : Id) (s : State) : State :=
  mkState (events s) (selectedEvent s) (loading s) (error s)
          (expandedEventId s) (searchTerm s) (dateFilter s)
          (showNewEventForm s) x (newEvent s) (newComment s).

Definition setNewEvent (x : NewEvent.t) (s : State) : State :=
  mkState (events s) (selectedEvent s) (loading s) (error s)
          (expandedEventId s) (searchTerm s) (dateFilter s)
          (showNewEventForm s) (showNewCommentForm s) x (newComment s).

Definition setNewComment (x : NewComment.t) (s : State) : State :=
  mkState (events s) (selectedEvent s) (loading s) (error s)
          (expandedEventId s) (searchTerm s) (dateFilter s)
          (showNewEventForm s) (showNewCommentForm s) (newEvent s) x.

(** ** The handlers *)

(** [array.map(f)] with a callback that may raise. *)
Fixpoint map_result {A B : Type} (f : A -> result B) (l : list A)
    : result (list B) :=
  match l with
  | [] => Ok []
  | x :: l' => y <- f x ;; ys <- map_result f l' ;; Ok (y :: ys)
  end.

(** [x || []] on a possibly absent array (an array is always truthy). *)
Definition or_empty {A : Type} (x : option (list A)) : list A :=
  match x with
  | Some l => l
  | None => []
  end.

(** [{...event, comentarios: event.comentarios || []}]: spreading [null]
    gives nothing, reading [comentarios] from it raises. *)
Definition eventWithComments (event : value) : result value :=
  match event with
  | Some e =>
      Ok (Some (Event.with_comentarios e (or_empty (Event.comentarios e))))
  | None => Throw (TypeError "comentarios")
  end.

(** [eventsData.map(event => ({...}))]; [None] is a body that is no array. *)
Definition eventsWithComments (eventsData : option (list value))
    : result (list value) :=
  match eventsData with
  | Some l => map_result eventWithComments l
  | None => Throw (TypeError "map")
  end.


(** [{...event, comentarios: [...(event.comentarios || []), createdComment]}] *)
Definition withNewComment (createdComment : option Comment.t) (e : Event.t)
    : Event.t :=
  Event.with_comentarios e
    (or_empty (Event.comentarios e) ++ [createdComment])%list.

(** The callback of [events.map] in [handleSubmitNewComment]. *)
Definition updateEvent (eventId : Id) (createdComment : option Comment.t)
    (event : value) : result value :=
  match event with
  | Some e =>
      if strict_eq (Event.id e) eventId
      then Ok (Some (withNewComment createdComment e))
      else Ok event
  | None => Throw (TypeError "id")
  end.

Definition updatedEvents (events : list value) (eventId : Id)
    (createdComment : option Comment.t) : result (list value) :=
  map_result (updateEvent eventId createdComment) events.

Section Handlers.
Context `{Host}.

(** [try { body } catch (err) { setError(err.message) }] *)
Definition try_catch (s : State) (body : result State) : State :=
  match body with
  | Ok s' => s'
  | Throw e => setError (message e) s
  end.

(** The effect callback: the state when [fetchData] has run. *)
Definition fetchData (s : State) (o : fetched (option (list value))) : State :=
  match
    (eventsData <- receive "Failed to fetch events" o ;;
     eventsWithComments eventsData)
  with
  | Ok evs => setLoading false (setEvents evs (setLoading true s))
  | Throw e => setLoading false (setError (message e) (setLoading true s))
  end.

(** An uncaught [TypeError] if the row's event is [null]. *)
Definition toggleEvent (s : State) (event : value) : result State :=
  match event with
  | Some e =>
      let i := Event.id e in
      Ok (setSelectedEvent event
            (setExpandedEventId
               (if strict_eq (expandedEventId s) i then IdNull else i) s))
  | None => Throw (TypeError "id")
  end.

(** The two create handlers, from the submission to the last setter, when
    the response arrives in the state of the submission. *)
Definition handleSubmitNewEvent (s : State) (o : fetched value) : State :=
  try_catch s
    (createdEvent <- receive "Failed to create event" o ;;
     event <- eventWithComments createdEvent ;;
     Ok (setNewEvent NewEvent.initial
           (setShowNewEventForm false
              (setEvents (events s ++ [event])%list s)))).

Definition handleSubmitNewComment (s : State) (eventId : Id)
    (o : fetched (option Comment.t)) : State :=
  try_catch s
    (createdComment <- receive "Failed to create comment" o ;;
     updated <- updatedEvents (events s) eventId createdComment ;;
     let s1 := setEvents updated s in
     let s2 :=
       match selectedEvent s with
       | Some sel =>
           if strict_eq (Event.id sel) eventId
           then setSelectedEvent (Some (withNewComment createdComment sel)) s1
           else s1
       | None => s1
       end in
     Ok (setNewComment NewComment.initial (setShowNewCommentForm IdNull s2))).

(** The two handlers are [async]: other updates may come between the
    submission of a form and the response. [events] and [selectedEvent] in
    the body of a handler are the constants of the render whose form was
    submitted, the state [render]; the setters write into the state the
    component has when the response arrives, the state [s]. With
    [render = s] these are the two definitions above. *)
Definition resumeSubmitNewEvent (render s : State) (o : fetched value)
    : State :=
  try_catch s
    (createdEvent <- receive "Failed to create event" o ;;
     event <- eventWithComments createdEvent ;;
     Ok (setNewEvent NewEvent.initial
           (setShowNewEventForm false
              (setEvents (events render ++ [event])%list s)))).

Definition resumeSubmitNewComment (render s : State) (eventId : Id)
    (o : fetched (option Comment.t)) : State :=
  try_catch s
    (createdComment <- receive "Failed to create comment" o ;;
     updated <- updatedEvents (events render) eventId createdComment ;;
     let s1 := setEvents updated s in
     let s2 :=
       match selectedEvent render with
       | Some sel =>
           if strict_eq (Event.id sel) eventId
           then setSelectedEvent (Some (withNewComment createdComment sel)) s1
           else s1
       | None => s1
       end in
     Ok (setNewComment NewComment.initial (setShowNewCommentForm IdNull s2))).
End Handlers.

(** ** Transitions of the component

    The table and the forms exist only once loading is over and no error is
    shown. A user action is handled at once, in the state that is on
    screen. A submission changes nothing by itself: it sends a request, and
    the rest of the handler runs when the response arrives, with the
    constants of the render that was on screen at the submission. No button
    is disabled while a request is pending, so a form may be submitted again,
    closed, or another one opened, before the response arrives, and the
    responses arrive in any order. A run is the list of the states the
    component went through, the latest first; a response that arrives
    belongs to a submission made in one of them. A render that raises
    unmounts the component; the relation lets a run go on from such a state
    as well, so what holds of every run here holds of every run of the
    component. *)

Section Transitions.
Context `{Host}.

(** Neither [if (loading) return ...] nor [if (error) return ...] fires. *)
Definition rendered (s : State) : bool :=
  negb (loading s) && negb (truthy_opt_string (error s)).

(** [event] has a row in the table. *)
Definition shown (s : State) (event : value) : Prop :=
  exists l,
    sortedEvents (events s) (searchTerm s) (dateFilter s) = Ok l /\
    In event l.

(** [expandedEventId === event.id]: the comments panel of the row is open. *)
Definition expanded (s : State) (e : Event.t) : Prop :=
  shown s (Some e) /\ strict_eq (expandedEventId s) (Event.id e) = true.

(** [showNewCommentForm === event.id] in an open panel: the comment form of
    the row is open. *)
Definition commenting (s : State) (e : Event.t) : Prop :=
  expanded s e /\ strict_eq (showNewCommentForm s) (Event.id e) = true.

(** The create-event form is on screen and its [required] fields are
    filled: the browser lets it be submitted. The other constraints of the
    inputs, [type] and [min], are left out, which allows more submissions
    than the browser does. *)
Definition submitsNewEvent (s : State) : Prop :=
  rendered s = true /\ showNewEventForm s = true /\
  NewEvent.nome (newEvent s) <> "" /\
  NewEvent.data (newEvent s) <> "" /\
  NewEvent.duracao_qtd (newEvent s) <> "".

(** The comment form of the row of [e] is on screen and its [required]
    field is filled. *)
Definition submitsNewComment (s : State) (e : Event.t) : Prop :=
  rendered s = true /\ commenting s e /\
  NewComment.comentario (newComment s) <> "".

(** What may come next in the state [s], the states [past] having come
    before. *)
Inductive next (past : list State) (s : State) : State -> Prop :=
| next_fetchData o :
    loading s = true ->
    next past s (fetchData s o)
| next_setSearchTerm x :
    rendered s = true ->
    next past s (setSearchTerm x s)
| next_setDateFilter x :
    rendered s = true ->
    next past s (setDateFilter x s)
| next_openNewEventForm :
    rendered s = true ->
    next past s (setShowNewEventForm true s)
| next_closeNewEventForm :
    rendered s = true ->
    showNewEventForm s = true ->
    next past s (setShowNewEventForm false s)
| next_setNewEvent f :
    rendered s = true ->
    showNewEventForm s = true ->
    next past s (setNewEvent f s)
| next_toggleEvent event s' :
    rendered s = true ->
    shown s event ->
    toggleEvent s event = Ok s' ->
    next past s s'
| next_openNewCommentForm e :
    rendered s = true ->
    expanded s e ->
    next past s (setShowNewCommentForm (Event.id e) s)
| next_closeNewCommentForm e :
    rendered s = true ->
    commenting s e ->
    next past s (setShowNewCommentForm IdNull s)
| next_setNewComment e f :
    rendered s = true ->
    commenting s e ->
    next past s (setNewComment f s)
| next_handleSubmitNewEvent render o :
    In render (s :: past) ->
    submitsNewEvent render ->
    next past s (resumeSubmitNewEvent render s o)
| next_handleSubmitNewComment render e o :
    In render (s :: past) ->
    submitsNewComment render e ->
    next past s (resumeSubmitNewComment render s (Event.id e) o).

Inductive run : list State -> Prop :=
| run_initial : run [initialState]
| run_next past s s' :
    run (s :: past) -> next past s s' -> run (s' :: s :: past).

(** [s'] may come next after [s] in a run. *)
Definition step (s s' : State) : Prop :=
  exists past, run (s :: past) /\ next past s s'.

(** [s] is a state of a run. *)
Definition reachable (s : State) : Prop :=
  exists past, run (s :: past).
End Transitions.

(** ** The same update on a heap of records

    [events.map] in [handleSubmitNewComment] returns references: the
    reference it was given for an event it leaves alone, and the reference
    of a freshly allocated record for an event it extends. An address is a
    position in the heap, in allocation order. *)

Module Heap.
Definition address : Type := nat.
Definition heap : Type := list Event.t.

(** [None] is [null]. *)
Definition reference : Type := option address.

Definition read (h : heap) (r : reference) : value :=
  match r with
  | Some a => nth_error h a
  | None => None
  end.

(** The events array as values. *)
Definition view (h : heap) (refs : list reference) : list value :=
  map (read h) refs.

(** An object literal allocates. *)
Definition alloc (h : heap) (e : Event.t) : heap * address :=
  ((h ++ [e])%list, List.length h).

Definition updateEvent (eventId : Id) (createdComment : option Comment.t)
    (h : heap) (r : reference) : result (heap * reference) :=
  match read h r with
  | Some e =>
      if strict_eq (Event.id e) eventId
      then let (h', a) := alloc h (withNewComment createdComment e) in
           Ok (h', Some a)
      else Ok (h, r)
  | None => Throw (TypeError "id")
  end.

Fixpoint map_heap (f : heap -> reference -> result (heap * reference))
    (h : heap) (refs : list reference) : result (heap * list reference) :=
  match refs with
  | [] => Ok (h, [])
  | r :: refs' =>
      p <- f h r ;;
      q <- map_heap f (fst p) refs' ;;
      Ok (fst q, snd p :: snd q)
  end.

Definition updatedEvents (h : heap) (events : list reference) (eventId : Id)
    (createdComment : option Comment.t) : result (heap * list reference) :=
  map_heap (updateEvent eventId createdComment) h events.

(** Every reference of the array points into the heap. *)
Definition well_formed (h : heap) (refs : list reference) : Prop :=
  Forall (fun r => exists a, r = Some a /\ (a < List.length h)%nat) refs.
End Heap.

(** Whether an entry is an event with the given id. *)
Definition has_id (eventId : Id) (event : value) : bool :=
  match event with
  | Some e => strict_eq (Event.id e) eventId
  | None => false
  end.

(** ** A host for the examples

    ASCII lower-casing, and the time values of a few ISO dates read as UTC. *)

Definition lower_ascii (c : ascii) : ascii :=
  let n := nat_of_ascii c in
  if ((65 <=? n) && (n <=? 90))%nat then ascii_of_nat (n + 32) else c.

Fixpoint lower (s : string) : string :=
  match s with
  | EmptyString => EmptyString
  | String c s' => String (lower_ascii c) (lower s')
  end.

Definition utc_date (s : string) : option Z :=
  if String.eqb s "1969-12-31" then Some (-86400000)
  else if String.eqb s "1970-01-01" then Some 0
  else if String.eqb s "2023-11-20" then Some 1700438400000
  else if String.eqb s "2024-05-01" then Some 1714521600000
  else if String.eqb s "2024-06-15" then Some 1718409600000
  else None.

Definition example_host : Host :=
  {| toLowerCase := lower;
     parseISO := utc_date;
     newDate := utc_date;
     typeErrorMessage := fun p => "Cannot read properties of null (reading '" ++ p ++ "')" |}.


(** ** Vocabulary of the specification *)

Section Vocabulary.
Context `{Host}.

(** The event has a name that contains [searchTerm], letter case apart. *)
Definition name_contains (searchTerm : string) (event : value) : Prop :=
  exists e nome,
    event = Some e /\ Event.nome e = Some nome /\
    includes (toLowerCase nome) (toLowerCase searchTerm) = true.

(** The event has no name: no record, no [nome], or an empty one. *)
Definition missing_name (event : value) : Prop :=
  match event with
  | None => True
  | Some e => Event.nome e = None \/ Event.nome e = Some ""
  end.

(** The event has no date: no record, no [data], or an empty one. *)
Definition missing_date (event : value) : Prop :=
  match event with
  | None => True
  | Some e => Event.data e = None \/ Event.data e = Some ""
  end.

(** The event's date and [dateFilter] are the same date. *)
Definition date_equals (dateFilter : string) (event : value) : Prop :=
  exists e d t,
    event = Some e /\ Event.data e = Some d /\
    parseISO d = Some t /\ parseISO dateFilter = Some t.

(** What [toLowerCase] does to emptiness: it neither empties a string nor
    fills the empty one. *)
Definition lower_keeps_empty : Prop :=
  forall s, toLowerCase s = "" <-> s = "".

(** The time value the comparator of the sort reads from an event record:
    that of its date, or [0] when it has none; [None] is [NaN]. *)
Definition timeOf (e : Event.t) : option Z :=
  match Event.data e with
  | Some d => if truthy_string d then newDate d else Some 0
  | None => Some 0
  end.

(** An event record whose date, if it has one, is a valid date. *)
Definition dated (event : value) : Prop :=
  exists e t, event = Some e /\ timeOf e = Some t.

(** The sort key of an entry. *)
Definition key (event : value) : Z :=
  match event with
  | Some e => match timeOf e with Some t => t | None => 0 end
  | None => 0
  end.

(** [a] is at least as new as [b]. *)
Definition ge_key (a b : value) : Prop := key b <= key a.

(** [a] occurs before [b] in [l]. *)
Definition precedes (a b : value) (l : list value) : Prop :=
  exists l1 l2 l3, l = (l1 ++ a :: l2 ++ b :: l3)%list.

(** Newest first. *)
Definition descending (l : list value) : Prop :=
  forall a b, precedes a b l -> key b <= key a.

(** The entries of equal key are the same, in the same order. *)
Definition same_order_of_ties (l l' : list value) : Prop :=
  forall k, filter (fun v => key v =? k) l' = filter (fun v => key v =? k) l.

(** Every entry without a date comes after every entry with one. *)
Definition undated_last (l : list value) : Prop :=
  forall a b, In a l -> In b l -> missing_date a -> ~ missing_date b ->
              precedes b a l.
End Vocabulary.

(** The number of binary digits of a positive integer, and its binary64
    form when it is below 2^53: a 53-digit mantissa and a scale. *)
Definition digits (c : Z) : Z := Z.log2 c + 1.

Definition norm (c : Z) : number :=
  S754_finite false (Z.to_pos (c * 2 ^ (53 - digits c))) (digits c - 53).

(** [t / 10] is a one-decimal value nearest to [s / n]. *)
Definition nearest_tenth (s n t : Z) : Prop :=
  2 * Z.abs (10 * s - t * n) <= n.

(** The comment is a record whose rating is missing, counted as [r = 0], or
    is the integer [r] of the range 0..5. *)
Definition rating_of (com : option Comment.t) (r : Z) : Prop :=
  exists c,
    com = Some c /\
    ((Comment.classificacao c = None /\ r = 0) \/
     (Comment.classificacao c = Some (of_Z r) /\ 0 <= r <= 5)).

Definition total (rs : list Z) : Z := fold_right Z.add 0 rs.

(** The HTTP call failed: [fetch] rejected, or the status is no success, or
    the body did not parse. *)
Definition failed {A : Type} (o : fetched A) : Prop :=
  match o with
  | Rejects _ => True
  | Responds status b => ok status = false \/ exists e, b = JsonFails e
  end.

(** The message a failed call leaves in the [error] cell: the fixed message
    of the call for a status that is no success, the message of the error
    thrown otherwise. *)
Definition failure_message `{Host} {A : Type} (fixed : string) (o : fetched A)
    : option string :=
  match o with
  | Rejects e => Some (message e)
  | Responds status b =>
      if ok status
      then match b with
           | JsonFails e => Some (message e)
           | Json _ => None
           end
      else Some fixed
  end.

(** ** Values of the examples *)

(** An event without a date, one dated the day before the epoch, and a
    recent one. *)
Definition workshop : Event.t :=
  Event.mk (IdNum 1) (Some "Workshop") None None None (Some []).

Definition moon_party : Event.t :=
  Event.mk (IdNum 2) (Some "Moon landing party") (Some "1969-12-31")
           None None (Some []).

Definition techconf : Event.t :=
  Event.mk (IdNum 3) (Some "TechConf 2024") (Some "2024-05-01")
           (Some 2) (Some "dias") (Some []).

Definition undated_event : value := Some workshop.
Definition old_event : value := Some moon_party.
Definition recent_event : value := Some techconf.

(** An event whose comment sequence holds a [null] entry. *)
Definition event_with_null_comment : value :=
  Some (Event.mk (IdNum 4) (Some "Meetup") None None None (Some [None])).

(** An event with two comments, rated 4 and 2. *)
Definition comment_rated (r : Z) : Comment.t :=
  Comment.mk IdUndefined (Some "Ana") (Some "Muito bom") (Some (of_Z r))
             (IdNum 5).

Definition hackathon : Event.t :=
  Event.mk (IdNum 5) (Some "Hackathon") (Some "2024-06-15") None None
           (Some [Some (comment_rated 4); Some (comment_rated 2)]).

(** The body of a create-event response without [comentarios]. *)
Definition created_event : Event.t :=
  Event.mk (IdNum 6) (Some "Feira") (Some "2024-06-15") (Some 3)
           (Some "dias") None.

(** The state once two events are fetched, and once the recent one is
    expanded. *)
Definition loaded_state : State :=
  @fetchData example_host initialState
    (Responds 200 (Json (Some [undated_event; recent_event]))).

Definition selecting_state : State :=
  setSelectedEvent recent_event
    (setExpandedEventId (IdNum 3) loaded_state).

(** A heap of three events and the array that refers to them. *)
Definition three_events : Heap.heap := [workshop; moon_party; techconf].

Definition three_refs : list Heap.reference := [Some 0%nat; Some 1%nat; Some 2%nat].

(** The same with an event that has comments already. *)
Definition commented_events : Heap.heap := [workshop; hackathon; techconf].


(** A run in which the response to a create-event request arrives late.
    The create-event form is opened, filled and submitted, then closed
    with its Cancel button while the request is pending. *)
Definition filled_event : NewEvent.t :=
  NewEvent.mk "Feira" "2024-06-15" "3" "dias".


Definition event_form_state : State :=
  setNewEvent filled_event (setShowNewEventForm true loaded_state).







(** ** Cells of the table (App.js, the rows of [sortedEvents.map]) *)

(** [event.duracao_qtd + ' ' + event.duracao_tipo || 'Sem info de duração'],
    on the strings ToString gives for the two properties: [+] binds tighter
    than [||], so the alternative is taken when the whole concatenation is
    falsy. *)
Definition durationCell (duracao_qtd duracao_tipo : string) : string :=
  let shown := duracao_qtd ++ " " ++ duracao_tipo in
  if truthy_string shown then shown else "Sem info de duração".

(** What the rating cell shows: a plain string, or a [toFixed] text followed
    by ["/5"]. *)
Inductive rating_cell : Type :=
| Plain (s : string)
| OutOfFive (t : text).

(** [t !== 'N/A']; the digits of a number are never ["N/A"]. *)
Definition is_not_available (t : text) : bool :=
  match t with
  | Lit s => String.eqb s "N/A"
  | NumberToString _ _ => false
  end.

(** [calculateAverageRating(event) !== 'N/A'
       ? calculateAverageRating(event) + '/5' : 'N/A'] *)
Definition ratingCell (event : value) : result rating_cell :=
  t <- calculateAverageRating event ;;
  if negb (is_not_available t)
  then (t' <- calculateAverageRating event ;; Ok (OutOfFive t'))
  else Ok (Plain "N/A").

(** ** Vocabulary of the further properties *)

(** An event record that has a comment sequence. *)
Definition normalised (event : value) : Prop :=
  exists e cs, event = Some e /\ Event.comentarios e = Some cs.



(** What every state of a run keeps: the collection holds event records
    that have a comment sequence, and so has the selected event. *)
Definition all_normalised (s : State) : Prop :=
  Forall normalised (events s) /\
  (forall sel, selectedEvent s = Some sel ->
               exists cs, Event.comentarios sel = Some cs).

(** The record of a fetched or created event: [comentarios] defaulted. *)
Definition defaulted (e : Event.t) : Event.t :=
  Event.with_comentarios e (or_empty (Event.comentarios e)).

(** The state once a first create-event request got a server error, a
    second one, submitted from the same form, being still pending. *)
Definition failed_state : State :=
  @resumeSubmitNewEvent example_host event_form_state event_form_state
    (Responds 500 (JsonFails (Error ""))).

(** An event whose comment sequence holds a [null] entry between two
    comments. *)
Definition interrupted_event : Event.t :=
  Event.mk (IdNum 8) (Some "Oficina") None None None
           (Some [Some (comment_rated 4); None; Some (comment_rated 2)]).

(** An event with three comments rated 4. *)
Definition steady_event : Event.t :=
  Event.mk (IdNum 7) (Some "Palestra") None None None
           (Some [Some (comment_rated 4); Some (comment_rated 4);
                  Some (comment_rated 4)]).

(** * Properties *)

(** ** Results *)

Lemma bind_Ok {A B : Type} (r : result A) (k : A -> result B) (b : B) :
  (x <- r ;; k x) = Ok b <-> exists a, r = Ok a /\ k a = Ok b.
Proof.
  destruct r as [a | e]; simpl; split.
  - intro E. exists a. split; [reflexivity | exact E].
  - intros (a' & E1 & E2). injection E1 as ->. exact E2.
  - discriminate.
  - intros (a' & E1 & _). discriminate.
Qed.

(** ** Strings *)

Lemma truthy_string_false (s : string) : truthy_string s = false <-> s = "".
Proof. destruct s; simpl; split; congruence. Qed.

Lemma truthy_string_true (s : string) : truthy_string s = true <-> s <> "".
Proof. destruct s; simpl; split; congruence. Qed.

Lemma prefix_empty_r (t : string) : String.prefix t "" = true -> t = "".
Proof. destruct t; simpl; [reflexivity | discriminate]. Qed.

Lemma includes_empty_l (t : string) : includes "" t = true -> t = "".
Proof.
  simpl. rewrite orb_false_r. apply prefix_empty_r.
Qed.

(** ** The filter *)

Section FilterFacts.
Context `{Host}.

Lemma matchesSearch_spec (searchTerm : string) (event : value) :
  lower_keeps_empty ->
  matchesSearch searchTerm event = true <->
  searchTerm = "" \/ name_contains searchTerm event.
Proof.
  intro L. unfold matchesSearch, name_contains.
  rewrite orb_true_iff, negb_true_iff, truthy_string_false.
  split; (intros [E | E]; [left; exact E | ]).
  - destruct event as [e | ]; [ | discriminate].
    destruct (Event.nome e) as [nome | ] eqn:N; [ | discriminate].
    apply andb_true_iff in E. destruct E as [_ E].
    right. exists e, nome. auto.
  - destruct E as (e & nome & -> & -> & E).
    destruct (truthy_string searchTerm) eqn:T.
    + right. rewrite E, andb_true_r.
      destruct nome as [ | c nome]; [ | reflexivity].
      exfalso.
      assert (L0 : toLowerCase "" = "") by (apply L; reflexivity).
      rewrite L0 in E. apply includes_empty_l in E.
      apply (proj1 (L searchTerm)) in E. subst searchTerm. discriminate.
    + left. apply truthy_string_false. exact T.
Qed.

Lemma has_data_None (event : value) :
  has_data event = None <-> missing_date event.
Proof.
  unfold has_data, missing_date. destruct event as [e | ]; [ | tauto].
  destruct (Event.data e) as [d | ]; [ | tauto].
  destruct d; simpl; split; try tauto; try discriminate.
  intros [E | E]; discriminate.
Qed.

Lemma has_data_Some (event : value) (d : string) :
  has_data event = Some d ->
  exists e, event = Some e /\ Event.data e = Some d /\ d <> "".
Proof.
  unfold has_data. destruct event as [e | ]; [ | discriminate].
  destruct (Event.data e) as [d' | ] eqn:Ed; [ | discriminate].
  destruct (truthy_string d') eqn:T; [ | discriminate].
  intro E. injection E as ->. exists e.
  split; [reflexivity | split; [exact Ed | ]].
  apply truthy_string_true. exact T.
Qed.

Lemma isEqual_true (a b : option Z) :
  isEqual a b = true <-> exists t, a = Some t /\ b = Some t.
Proof.
  unfold isEqual. destruct a as [x | ], b as [y | ]; split;
    try discriminate; try (intros (t & E1 & E2); discriminate).
  - intro E. apply Z.eqb_eq in E. subst y. exists x. auto.
  - intros (t & E1 & E2). injection E1 as ->. injection E2 as ->.
    apply Z.eqb_refl.
Qed.

Lemma matchesDateRange_spec (dateFilter : string) (event : value) :
  matchesDateRange dateFilter event = true <->
  dateFilter = "" \/ missing_date event \/ date_equals dateFilter event.
Proof.
  unfold matchesDateRange.
  destruct (has_data event) as [d | ] eqn:D.
  - destruct (has_data_Some _ _ D) as (e & -> & Ed & Hd).
    destruct (truthy_string dateFilter) eqn:T.
    + apply truthy_string_true in T. rewrite isEqual_true. split.
      * intros (t & E1 & E2). right. right. exists e, d, t. auto.
      * intros [E | [E | E]].
        -- contradiction.
        -- apply has_data_None in E. congruence.
        -- destruct E as (e' & d' & t & E0 & E1 & E2 & E3).
           injection E0 as <-. rewrite Ed in E1. injection E1 as <-.
           exists t. auto.
    + apply truthy_string_false in T. tauto.
  - apply has_data_None in D. tauto.
Qed.

Lemma keep_empty (event : value) : keep "" "" event = true.
Proof.
  unfold keep, matchesSearch, matchesDateRange. simpl.
  destruct (has_data event); reflexivity.
Qed.

Lemma filteredEvents_incl (events : list value) (searchTerm dateFilter : string)
    (event : value) :
  In event (filteredEvents events searchTerm dateFilter) -> In event events.
Proof.
  unfold filteredEvents. intro I. apply filter_In in I. tauto.
Qed.

(** C1: [filter] keeps an event exactly when (the search term is empty or the
    event has a name that contains it, letter case apart) and (the date
    filter is empty, or the event has no date, or its date is the filter's
    date); so an event without a name is never kept under a non-empty search
    term, and an event without a date always passes the date filter. *)
Theorem filteredEvents_keeps (events : list value)
    (searchTerm dateFilter : string) (event : value) :
  lower_keeps_empty ->
  (In event (filteredEvents events searchTerm dateFilter) <->
   In event events /\
   (searchTerm = "" \/ name_contains searchTerm event) /\
   (dateFilter = "" \/ missing_date event \/ date_equals dateFilter event))
  /\ (searchTerm <> "" -> missing_name event ->
      ~ In event (filteredEvents events searchTerm dateFilter))
  /\ (missing_date event -> In event events ->
      (searchTerm = "" \/ name_contains searchTerm event) ->
      In event (filteredEvents events searchTerm dateFilter)).
Proof.
  intro L.
  assert (K : In event (filteredEvents events searchTerm dateFilter) <->
              In event events /\
              (searchTerm = "" \/ name_contains searchTerm event) /\
              (dateFilter = "" \/ missing_date event \/
               date_equals dateFilter event)).
  { unfold filteredEvents, keep.
    rewrite filter_In, andb_true_iff, (matchesSearch_spec _ _ L),
      matchesDateRange_spec.
    reflexivity. }
  split; [exact K | split].
  - intros Hs Hn I. apply K in I. destruct I as (_ & [E | E] & _).
    + contradiction.
    + destruct E as (e & nome & -> & N & E). simpl in Hn.
      destruct Hn as [Hn | Hn]; rewrite Hn in N; [discriminate | ].
      injection N as <-.
      assert (L0 : toLowerCase "" = "") by (apply L; reflexivity).
      rewrite L0 in E. apply includes_empty_l in E.
      apply (proj1 (L searchTerm)) in E. contradiction.
  - intros Hd I Hs. apply K. auto.
Qed.

(** C6: with an empty search term and an empty date filter, [filter] returns
    its input. *)
Theorem filteredEvents_identity (events : list value) :
  filteredEvents events "" "" = events.
Proof.
  unfold filteredEvents.
  induction events as [ | event events IH]; simpl.
  - reflexivity.
  - rewrite keep_empty, IH. reflexivity.
Qed.
End FilterFacts.

(** ** The sort *)

Section SortFacts.
Context `{Host}.

Lemma dateOf_dated (a : value) :
  dated a -> dateOf a = Ok (Some (key a)).
Proof.
  intros (e & t & -> & T). unfold key. rewrite T. simpl.
  unfold timeOf in T. destruct (Event.data e) as [d | ].
  - destruct (truthy_string d); congruence.
  - congruence.
Qed.

Lemma sortCompare_dated (a b : value) :
  dated a -> dated b -> sortCompare a b = Ok (key b - key a).
Proof.
  intros Ha Hb. unfold sortCompare, compareFn.
  rewrite (dateOf_dated a Ha), (dateOf_dated b Hb). reflexivity.
Qed.

Lemma key_missing_date (event : value) : missing_date event -> key event = 0.
Proof.
  destruct event as [e | ]; [ | reflexivity].
  unfold key, timeOf. simpl. intros [E | E]; rewrite E; reflexivity.
Qed.

(** [insert] on dated entries: it returns, and what it returns is the list
    with [x] put before the first entry that is not newer. *)
Lemma insert_dated (x : value) (l : list value) :
  dated x -> Forall dated l ->
  exists l1 l2,
    insert x l = Ok (l1 ++ x :: l2)%list /\
    l = (l1 ++ l2)%list /\
    Forall (fun y => key x < key y) l1 /\
    (forall y l2', l2 = y :: l2' -> key y <= key x).
Proof.
  intros Hx. induction l as [ | y l IH]; intro Hl.
  - exists [], []. simpl. repeat split; [constructor | discriminate].
  - inversion Hl as [ | ? ? Hy Hl']; subst. simpl.
    rewrite (sortCompare_dated x y Hx Hy). simpl.
    destruct (0 <? key y - key x) eqn:C.
    + apply Z.ltb_lt in C.
      destruct (IH Hl') as (l1 & l2 & E & -> & F & G).
      exists (y :: l1), l2. rewrite E. simpl.
      repeat split; [constructor; [lia | exact F] | exact G].
    + apply Z.ltb_ge in C.
      exists [], (y :: l). simpl.
      repeat split; [constructor | ].
      intros y' l2' E. injection E as <- <-. lia.
Qed.

Lemma sort_dated (l : list value) :
  Forall dated l ->
  exists l',
    sort l = Ok l' /\ Permutation l l' /\
    StronglySorted ge_key l' /\ same_order_of_ties l l'.
Proof.
  induction l as [ | x l IH]; intro Hl.
  - exists []. simpl. repeat split; [constructor | constructor].
  - inversion Hl as [ | ? ? Hx Hl']; subst.
    destruct (IH Hl') as (s & E & P & S & T).
    assert (Hs : Forall dated s).
    { apply Forall_forall. intros v I.
      apply (proj1 (Forall_forall _ _) Hl').
      apply (Permutation_in _ (Permutation_sym P) I). }
    destruct (insert_dated x s Hx Hs) as (l1 & l2 & E' & -> & F & G).
    exists (l1 ++ x :: l2)%list. simpl. rewrite E. simpl.
    split; [exact E' | split; [ | split]].
    + apply Permutation_cons_app. exact P.
    + clear - S F G. induction l1 as [ | y l1 IH]; simpl in *.
      * constructor; [exact S | ].
        destruct l2 as [ | z l2]; [constructor | ].
        inversion S as [ | ? ? S' Fz]; subst.
        specialize (G z l2 eq_refl).
        constructor; [exact G | ].
        eapply Forall_impl; [ | exact Fz].
        unfold ge_key. intros a Ha. lia.
      * inversion S as [ | ? ? S' Fy]; subst.
        inversion F as [ | ? ? Fy' F']; subst.
        constructor; [apply IH; assumption | ].
        apply Forall_app in Fy. destruct Fy as [Fy1 Fy2].
        apply Forall_app. split; [exact Fy1 | ].
        constructor; [unfold ge_key; lia | exact Fy2].
    + intro k. specialize (T k). simpl.
      rewrite filter_app in *. simpl. rewrite <- T.
      assert (N : key x = k ->
                  filter (fun v => key v =? k) l1 = []).
      { intros <-. clear - F. induction F as [ | y l1 Fy F IH]; simpl.
        - reflexivity.
        - replace (key y =? key x) with false
            by (symmetry; apply Z.eqb_neq; lia).
          exact IH. }
      destruct (key x =? k) eqn:K.
      * apply Z.eqb_eq in K. rewrite (N K). reflexivity.
      * reflexivity.
Qed.

Lemma StronglySorted_descending (l : list value) :
  StronglySorted ge_key l -> descending l.
Proof.
  intros S a b (l1 & l2 & l3 & ->).
  induction l1 as [ | y l1 IH]; simpl in S.
  - inversion S as [ | ? ? _ F]; subst.
    apply (proj1 (Forall_forall _ _) F).
    apply in_or_app. right. left. reflexivity.
  - inversion S; subst. apply IH. assumption.
Qed.

Lemma in_precedes (a b : value) (l : list value) :
  In a l -> In b l -> a <> b -> precedes a b l \/ precedes b a l.
Proof.
  intros Ia Ib N.
  destruct (in_split _ _ Ia) as (l1 & l2 & ->).
  apply in_app_or in Ib. destruct Ib as [Ib | [Ib | Ib]].
  - right. destruct (in_split _ _ Ib) as (m1 & m2 & ->).
    exists m1, m2, l2. rewrite <- app_assoc. reflexivity.
  - congruence.
  - left. destruct (in_split _ _ Ib) as (m1 & m2 & ->).
    exists l1, m1, m2. reflexivity.
Qed.

(** A descending list is determined by its entries of each key in order:
    whatever stable sort the engine runs, it returns what [sort] returns. *)
Lemma descending_stable_unique (l1 l2 : list value) :
  StronglySorted ge_key l1 -> StronglySorted ge_key l2 ->
  same_order_of_ties l1 l2 -> l1 = l2.
Proof.
  revert l2. induction l1 as [ | a l1 IH]; intros l2 S1 S2 T.
  - destruct l2 as [ | b l2]; [reflexivity | ].
    specialize (T (key b)). simpl in T. rewrite Z.eqb_refl in T.
    discriminate.
  - destruct l2 as [ | b l2].
    + specialize (T (key a)). simpl in T. rewrite Z.eqb_refl in T.
      discriminate.
    + inversion S1 as [ | ? ? S1' F1]; subst.
      inversion S2 as [ | ? ? S2' F2]; subst.
      assert (Ia : In a (b :: l2)).
      { pose proof (T (key a)) as Ta.
        assert (I : In a (filter (fun v => key v =? key a) (b :: l2))).
        { rewrite Ta. simpl. rewrite Z.eqb_refl. left. reflexivity. }
        apply filter_In in I. tauto. }
      assert (Ib : In b (a :: l1)).
      { pose proof (T (key b)) as Tb.
        assert (I : In b (filter (fun v => key v =? key b) (a :: l1))).
        { rewrite <- Tb. simpl. rewrite Z.eqb_refl. left. reflexivity. }
        apply filter_In in I. tauto. }
      assert (K : key a = key b).
      { apply Z.le_antisymm.
        - destruct Ia as [-> | Ia]; [lia | ].
          apply (proj1 (Forall_forall _ _) F2 a Ia).
        - destruct Ib as [-> | Ib]; [lia | ].
          apply (proj1 (Forall_forall _ _) F1 b Ib). }
      assert (E : a = b).
      { pose proof (T (key a)) as Ta. simpl in Ta.
        rewrite Z.eqb_refl in Ta. rewrite <- K in Ta.
        rewrite Z.eqb_refl in Ta. congruence. }
      subst b. f_equal. apply IH; [assumption | assumption | ].
      intro k. specialize (T k). simpl in T.
      destruct (key a =? k); congruence.
Qed.

Lemma sort_unique (events sorted : list value) :
  Forall dated events ->
  StronglySorted ge_key sorted -> same_order_of_ties events sorted ->
  sort events = Ok sorted.
Proof.
  intros D S T.
  destruct (sort_dated events D) as (l' & E & _ & S' & T').
  rewrite E. f_equal.
  apply descending_stable_unique; [assumption | assumption | ].
  intro k. rewrite (T k), (T' k). reflexivity.
Qed.

(** C3, as amended: on event records whose dates are valid, [sort] returns
    the events newest first, an event without a date counting as time value
    0, the epoch: it comes after every event dated after the epoch and
    before every event dated before it; events of equal time value, the
    events without a date among them, keep the order of the input. *)
Theorem sort_by_time_value (events : list value) :
  Forall dated events ->
  exists sorted,
    sort events = Ok sorted /\
    Permutation events sorted /\
    descending sorted /\
    same_order_of_ties events sorted /\
    (forall a, missing_date a -> key a = 0) /\
    (forall a b, In a sorted -> In b sorted -> missing_date a ->
                 0 < key b -> precedes b a sorted) /\
    (forall a b, In a sorted -> In b sorted -> missing_date a ->
                 key b < 0 -> precedes a b sorted).
Proof.
  intro D.
  destruct (sort_dated events D) as (sorted & E & P & S & T).
  apply StronglySorted_descending in S.
  exists sorted.
  split; [exact E | split; [exact P | split; [exact S | split; [exact T | ]]]].
  split; [apply key_missing_date | split].
  - intros a b Ia Ib Ma Kb. apply key_missing_date in Ma.
    destruct (in_precedes a b sorted Ia Ib) as [C | C].
    + intros ->. lia.
    + apply S in C. lia.
    + exact C.
  - intros a b Ia Ib Ma Kb. apply key_missing_date in Ma.
    destruct (in_precedes a b sorted Ia Ib) as [C | C].
    + intros ->. lia.
    + exact C.
    + apply S in C. lia.
Qed.
End SortFacts.

(** C3, as stated, fails: the event without a date is placed before the
    event dated 1969-12-31, whose time value is negative. *)
Lemma sort_undated_before_old :
  @sort example_host [undated_event; old_event]
    = Ok [undated_event; old_event] /\
  missing_date undated_event /\
  ~ missing_date old_event /\
  ~ undated_last [undated_event; old_event].
Proof.
  split; [reflexivity | split; [simpl; auto | split]].
  - simpl. intros [E | E]; discriminate.
  - intro U.
    destruct (U undated_event old_event) as (l1 & l2 & l3 & E).
    + left. reflexivity.
    + right. left. reflexivity.
    + simpl. auto.
    + simpl. intros [E | E]; discriminate.
    + destruct l1 as [ | v l1]; simpl in E.
      * injection E as E _. discriminate.
      * injection E as _ E.
        destruct l1 as [ | w l1]; simpl in E.
        -- injection E as E. destruct l2; discriminate.
        -- injection E as _ E. destruct l1; discriminate.
Qed.

(** ** Binary64 arithmetic on integers *)

Lemma digits2_pos_bounds (p : positive) :
  2 ^ (Z.pos (digits2_pos p) - 1) <= Z.pos p < 2 ^ Z.pos (digits2_pos p).
Proof.
  induction p as [p IH | p IH | ]; simpl digits2_pos.
  - rewrite Pos2Z.inj_succ. change (Z.pos p~1) with (2 * Z.pos p + 1).
    replace (Z.succ (Z.pos (digits2_pos p)) - 1)
      with (Z.succ (Z.pos (digits2_pos p) - 1)) by lia.
    rewrite !Z.pow_succ_r by lia. lia.
  - rewrite Pos2Z.inj_succ. change (Z.pos p~0) with (2 * Z.pos p).
    replace (Z.succ (Z.pos (digits2_pos p)) - 1)
      with (Z.succ (Z.pos (digits2_pos p) - 1)) by lia.
    rewrite !Z.pow_succ_r by lia. lia.
  - simpl. lia.
Qed.

Lemma digits2_pos_unique (p : positive) (d : Z) :
  2 ^ (d - 1) <= Z.pos p < 2 ^ d -> Z.pos (digits2_pos p) = d.
Proof.
  intro B. pose proof (digits2_pos_bounds p) as B'.
  assert (0 < d).
  { destruct (Z.le_gt_cases d 0) as [L | L]; [ | exact L].
    exfalso. destruct B as [_ B].
    assert (2 ^ d <= 1).
    { destruct (Z.eq_dec d 0) as [-> | N]; [simpl; lia | ].
      rewrite Z.pow_neg_r by lia. lia. }
    lia. }
  assert (E1 : Z.log2 (Z.pos p) = d - 1).
  { apply Z.log2_unique; [lia | ].
    replace (Z.succ (d - 1)) with d by lia. exact B. }
  assert (E2 : Z.log2 (Z.pos p) = Z.pos (digits2_pos p) - 1).
  { apply Z.log2_unique; [lia | ].
    replace (Z.succ (Z.pos (digits2_pos p) - 1))
      with (Z.pos (digits2_pos p)) by lia. exact B'. }
  lia.
Qed.

Lemma iter_xO (m k : positive) :
  Z.pos (Pos.iter xO m k) = Z.pos m * 2 ^ Z.pos k.
Proof.
  induction k as [ | k IH] using Pos.peano_ind.
  - simpl. lia.
  - rewrite Pos.iter_succ.
    change (Z.pos (Pos.iter xO m k)~0) with (2 * Z.pos (Pos.iter xO m k)).
    rewrite IH, Pos2Z.inj_succ.
    rewrite Z.pow_succ_r by lia. lia.
Qed.

Lemma shl_align_spec (m : positive) (e e' : Z) :
  snd (shl_align m e e') = Z.min e e' /\
  Z.pos (fst (shl_align m e e')) = Z.pos m * 2 ^ (e - Z.min e e').
Proof.
  unfold shl_align. destruct (e' - e) as [ | d | d] eqn:D; cbn [fst snd].
  - replace (Z.min e e') with e by lia. rewrite Z.sub_diag, Z.pow_0_r. lia.
  - replace (Z.min e e') with e by lia. rewrite Z.sub_diag, Z.pow_0_r. lia.
  - replace (Z.min e e') with e' by lia. rewrite iter_xO.
    replace (e - e') with (Z.pos d) by lia. lia.
Qed.

Lemma shr_1_even (x : Z) :
  0 <= x ->
  shr_1 (Build_shr_record (2 * x) false false) = Build_shr_record x false false.
Proof.
  intro P. destruct x as [ | p | p]; [reflexivity | reflexivity | lia].
Qed.

Lemma iter_pos_shr_1_exact (p : positive) : forall x,
  0 <= x ->
  iter_pos shr_1 p (Build_shr_record (x * 2 ^ Z.pos p) false false)
  = Build_shr_record x false false.
Proof.
  induction p as [p IH | p IH | ]; intros x P; cbn [iter_pos].
  - change (Z.pos p~1) with (2 * Z.pos p + 1).
    replace (x * 2 ^ (2 * Z.pos p + 1))
      with (2 * (x * 2 ^ Z.pos p * 2 ^ Z.pos p)).
    + rewrite shr_1_even by nia. rewrite IH by nia. apply IH. exact P.
    + rewrite Z.pow_add_r, Z.pow_1_r by lia.
      replace (2 * Z.pos p) with (Z.pos p + Z.pos p) by lia.
      rewrite Z.pow_add_r by lia. lia.
  - change (Z.pos p~0) with (2 * Z.pos p).
    replace (x * 2 ^ (2 * Z.pos p)) with (x * 2 ^ Z.pos p * 2 ^ Z.pos p).
    + rewrite IH by nia. apply IH. exact P.
    + replace (2 * Z.pos p) with (Z.pos p + Z.pos p) by lia.
      rewrite Z.pow_add_r by lia. lia.
  - rewrite Z.pow_1_r, Z.mul_comm. apply shr_1_even. exact P.
Qed.

Lemma fexp_normal (e : Z) : -1021 <= e -> fexp prec emax e = e - 53.
Proof. unfold fexp, emin, prec, emax. lia. Qed.

Lemma digits2_pos_shift (M m1 : positive) (k : Z) :
  0 <= k -> Z.pos M = Z.pos m1 * 2 ^ k ->
  Z.pos (digits2_pos m1) = 53 ->
  Z.pos (digits2_pos M) = 53 + k.
Proof.
  intros K E D. apply digits2_pos_unique.
  pose proof (digits2_pos_bounds m1) as B. rewrite D in B.
  replace (53 + k - 1) with (52 + k) by lia.
  rewrite !Z.pow_add_r, E by lia.
  change (53 - 1) with 52 in B.
  assert (0 < 2 ^ k) by (apply Z.pow_pos_nonneg; lia).
  nia.
Qed.

Lemma shr_fexp_exact (M m1 : positive) (e k : Z) :
  0 <= k -> Z.pos M = Z.pos m1 * 2 ^ k ->
  Z.pos (digits2_pos m1) = 53 ->
  -1074 <= e + k ->
  shr_fexp prec emax (Z.pos M) e loc_Exact
  = (Build_shr_record (Z.pos m1) false false, e + k).
Proof.
  intros K E D B. unfold shr_fexp. cbn [Zdigits2 shr_record_of_loc].
  rewrite (digits2_pos_shift M m1 k K E D).
  rewrite fexp_normal by lia.
  replace (53 + k + e - 53 - e) with k by lia.
  destruct k as [ | p | p]; [ | | lia].
  - rewrite Z.pow_0_r, Z.mul_1_r in E. injection E as ->.
    unfold shr. rewrite Z.add_0_r. reflexivity.
  - unfold shr. rewrite E, iter_pos_shr_1_exact by lia. reflexivity.
Qed.

Lemma binary_round_aux_exact (sx : bool) (M m1 : positive) (e k : Z) :
  0 <= k -> Z.pos M = Z.pos m1 * 2 ^ k ->
  Z.pos (digits2_pos m1) = 53 ->
  -1074 <= e + k <= 971 ->
  binary_round_aux prec emax sx (Z.pos M) e loc_Exact
  = S754_finite sx m1 (e + k).
Proof.
  intros K E D B. unfold binary_round_aux.
  rewrite (shr_fexp_exact M m1 e k K E D) by lia.
  cbn [shr_m loc_of_shr_record round_nearest_even].
  rewrite (shr_fexp_exact m1 m1 (e + k) 0) by (rewrite ?Z.pow_0_r; lia).
  cbn [shr_m]. rewrite Z.add_0_r.
  replace (e + k <=? emax - prec) with true; [reflexivity | ].
  symmetry. apply Z.leb_le. unfold emax, prec. lia.
Qed.


Lemma digits_bounds (c : Z) :
  0 < c < 2 ^ 53 -> 1 <= digits c <= 53 /\ 2 ^ (digits c - 1) <= c < 2 ^ digits c.
Proof.
  intros [P B]. unfold digits.
  pose proof (Z.log2_spec c P) as S.
  pose proof (Z.log2_nonneg c) as N.
  replace (Z.log2 c + 1 - 1) with (Z.log2 c) by lia.
  replace (Z.log2 c + 1) with (Z.succ (Z.log2 c)) by lia.
  split; [ | exact S].
  assert (Z.log2 c < 53); [ | lia].
  apply Z.log2_lt_pow2; assumption.
Qed.

Lemma norm_mantissa (c : Z) :
  0 < c < 2 ^ 53 ->
  Z.pos (Z.to_pos (c * 2 ^ (53 - digits c))) = c * 2 ^ (53 - digits c) /\
  Z.pos (digits2_pos (Z.to_pos (c * 2 ^ (53 - digits c)))) = 53.
Proof.
  intro C. destruct (digits_bounds c C) as [D B].
  assert (0 < 2 ^ (53 - digits c)) by (apply Z.pow_pos_nonneg; lia).
  assert (E : Z.pos (Z.to_pos (c * 2 ^ (53 - digits c)))
              = c * 2 ^ (53 - digits c)) by (apply Z2Pos.id; nia).
  split; [exact E | ].
  apply digits2_pos_unique. rewrite E.
  replace (2 ^ (53 - 1)) with (2 ^ (digits c - 1) * 2 ^ (53 - digits c))
    by (rewrite <- Z.pow_add_r by lia; f_equal; lia).
  replace (2 ^ 53) with (2 ^ digits c * 2 ^ (53 - digits c))
    by (rewrite <- Z.pow_add_r by lia; f_equal; lia).
  nia.
Qed.

(** Rounding an integer below 2^53, given with a scale, gives its canonical
    form: nothing is lost. *)
Lemma binary_round_norm (M : positive) (e c : Z) :
  0 < c < 2 ^ 53 -> -1074 <= e <= 0 -> Z.pos M = c * 2 ^ (- e) ->
  binary_round prec emax false M e = norm c.
Proof.
  intros C E V. destruct (digits_bounds c C) as [D B].
  destruct (norm_mantissa c C) as [Nm Nd].
  assert (P : 0 < 2 ^ (- e)) by (apply Z.pow_pos_nonneg; lia).
  assert (DM : Z.pos (digits2_pos M) = digits c - e).
  { apply digits2_pos_unique. rewrite V.
    replace (digits c - e - 1) with (digits c - 1 + - e) by lia.
    replace (digits c - e) with (digits c + - e) by lia.
    rewrite !Z.pow_add_r by lia. nia. }
  unfold binary_round.
  pose proof (shl_align_spec M e (fexp prec emax (Z.pos (digits2_pos M) + e)))
    as [S1 S2].
  destruct (shl_align M e (fexp prec emax (Z.pos (digits2_pos M) + e)))
    as [mz ez]. cbn [fst snd] in S1, S2.
  rewrite DM in S1, S2. rewrite fexp_normal in S1, S2 by lia.
  replace (digits c - e + e - 53) with (digits c - 53) in S1, S2 by lia.
  unfold norm.
  destruct (Z.le_gt_cases e (digits c - 53)) as [L | L].
  - (* the scale is at most the canonical one: the round shifts right *)
    replace (Z.min e (digits c - 53)) with e in S1, S2 by lia. subst ez.
    rewrite Z.sub_diag, Z.pow_0_r, Z.mul_1_r in S2. injection S2 as ->.
    rewrite (binary_round_aux_exact false M
               (Z.to_pos (c * 2 ^ (53 - digits c))) e (digits c - 53 - e));
      [f_equal; lia | lia | | exact Nd | lia].
    rewrite Nm, V, <- Z.mul_assoc, <- Z.pow_add_r by lia.
    do 2 f_equal. lia.
  - (* the scale is above the canonical one: the mantissa was shifted left *)
    replace (Z.min e (digits c - 53)) with (digits c - 53) in S1, S2 by lia.
    subst ez.
    assert (mz = Z.to_pos (c * 2 ^ (53 - digits c))) as ->.
    { apply Pos2Z.inj. rewrite Nm, S2, V, <- Z.mul_assoc, <- Z.pow_add_r by lia.
      do 2 f_equal. lia. }
    rewrite (binary_round_aux_exact false _
               (Z.to_pos (c * 2 ^ (53 - digits c))) (digits c - 53) 0);
      [f_equal; lia | lia | | exact Nd | lia].
    rewrite Z.pow_0_r. lia.
Qed.

Lemma of_Z_norm (c : Z) : 0 < c < 2 ^ 53 -> of_Z c = norm c.
Proof.
  intro C. unfold of_Z, binary_normalize.
  destruct c as [ | p | p]; [lia | | lia].
  apply binary_round_norm; [exact C | lia | ].
  simpl. lia.
Qed.

Lemma of_Z_0 : of_Z 0 = S754_zero false.
Proof. reflexivity. Qed.

Lemma add_norm (a b : Z) :
  0 < a -> 0 < b -> a + b < 2 ^ 53 ->
  add (norm a) (norm b) = norm (a + b).
Proof.
  intros A B C.
  assert (Ca : 0 < a < 2 ^ 53) by lia.
  assert (Cb : 0 < b < 2 ^ 53) by lia.
  destruct (digits_bounds a Ca) as [Da _].
  destruct (digits_bounds b Cb) as [Db _].
  destruct (norm_mantissa a Ca) as [Ma _].
  destruct (norm_mantissa b Cb) as [Mb _].
  unfold add, norm, SFadd. cbn [cond_Zopp].
  set (ez := Z.min (digits a - 53) (digits b - 53)).
  pose proof (shl_align_spec (Z.to_pos (a * 2 ^ (53 - digits a)))
                (digits a - 53) ez) as [_ Sa].
  pose proof (shl_align_spec (Z.to_pos (b * 2 ^ (53 - digits b)))
                (digits b - 53) ez) as [_ Sb].
  replace (Z.min (digits a - 53) ez) with ez in Sa by lia.
  replace (Z.min (digits b - 53) ez) with ez in Sb by lia.
  rewrite Ma, <- Z.mul_assoc, <- Z.pow_add_r in Sa by lia.
  rewrite Mb, <- Z.mul_assoc, <- Z.pow_add_r in Sb by lia.
  replace (53 - digits a + (digits a - 53 - ez)) with (- ez) in Sa by lia.
  replace (53 - digits b + (digits b - 53 - ez)) with (- ez) in Sb by lia.
  set (x := fst (shl_align (Z.to_pos (a * 2 ^ (53 - digits a)))
                   (digits a - 53) ez)) in *.
  set (y := fst (shl_align (Z.to_pos (b * 2 ^ (53 - digits b)))
                   (digits b - 53) ez)) in *.
  change (Z.pos x + Z.pos y) with (Z.pos (x + y)).
  unfold binary_normalize.
  apply binary_round_norm; [lia | lia | ].
  rewrite Pos2Z.inj_add, Sa, Sb. lia.
Qed.

Lemma add_of_Z (a b : Z) :
  0 <= a -> 0 <= b -> a + b < 2 ^ 53 ->
  add (of_Z a) (of_Z b) = of_Z (a + b).
Proof.
  intros A B C.
  destruct (Z.eq_dec a 0) as [-> | Na].
  - rewrite of_Z_0. simpl (0 + b).
    destruct (Z.eq_dec b 0) as [-> | Nb]; [reflexivity | ].
    rewrite of_Z_norm by lia. reflexivity.
  - destruct (Z.eq_dec b 0) as [-> | Nb].
    + rewrite of_Z_0, Z.add_0_r, of_Z_norm by lia. reflexivity.
    + rewrite !of_Z_norm by lia. apply add_norm; lia.
Qed.

Lemma new_location_spec (nb r : Z) :
  0 < nb -> 0 <= r < nb ->
  new_location nb r
  = if r =? 0 then loc_Exact else loc_Inexact (2 * r ?= nb).
Proof.
  intros N R. unfold new_location, new_location_even, new_location_odd.
  destruct (Z.even nb) eqn:Ev; destruct (r =? 0) eqn:Z0; try reflexivity.
  f_equal.
  assert (Od : Z.odd nb = true) by (rewrite <- Z.negb_even, Ev; reflexivity).
  apply Z.odd_spec in Od. destruct Od as [k Ek].
  destruct (Z.compare_spec (2 * r + 1) nb) as [C | C | C];
    symmetry; [apply Z.compare_lt_iff | apply Z.compare_lt_iff
              | apply Z.compare_gt_iff]; lia.
Qed.

Lemma loc_of_shr_record_of_loc (m : Z) (l : location) :
  loc_of_shr_record (shr_record_of_loc m l) = l.
Proof. destruct l as [ | [ | | ]]; reflexivity. Qed.

Lemma shr_fexp_53 (q : positive) (e : Z) (l : location) :
  2 ^ 52 <= Z.pos q < 2 ^ 53 -> -1074 <= e ->
  shr_fexp prec emax (Z.pos q) e l = (shr_record_of_loc (Z.pos q) l, e).
Proof.
  intros Q E. unfold shr_fexp. cbn [Zdigits2].
  rewrite (digits2_pos_unique q 53) by exact Q.
  rewrite fexp_normal by lia.
  replace (53 + e - 53 - e) with 0 by lia. reflexivity.
Qed.

Lemma shr_fexp_54 (q : positive) (e : Z) (l : location) :
  2 ^ 53 <= Z.pos q < 2 ^ 54 -> -1074 <= e ->
  shr_fexp prec emax (Z.pos q) e l
  = (shr_1 (shr_record_of_loc (Z.pos q) l), e + 1).
Proof.
  intros Q E. unfold shr_fexp. cbn [Zdigits2].
  rewrite (digits2_pos_unique q 54) by exact Q.
  rewrite fexp_normal by lia.
  replace (54 + e - 53 - e) with 1 by lia. reflexivity.
Qed.

(** The last step of a round: a mantissa that the rounding carried to 2^53
    is brought back to 53 digits. *)
Lemma shr_fexp_finish (m1 e : Z) :
  2 ^ 52 <= m1 <= 2 ^ 53 -> -1074 <= e ->
  exists mf g,
    0 <= g <= 1 /\ Z.pos mf * 2 ^ g = m1 /\
    2 ^ 52 <= Z.pos mf < 2 ^ 53 /\
    shr_fexp prec emax m1 e loc_Exact
    = (Build_shr_record (Z.pos mf) false false, e + g).
Proof.
  intros M E. destruct (Z.eq_dec m1 (2 ^ 53)) as [-> | N].
  - exists (4503599627370496)%positive, 1.
    split; [lia | split; [reflexivity | split; [split; reflexivity | ]]].
    change (2 ^ 53) with (Z.pos 9007199254740992).
    apply shr_fexp_exact; [lia | reflexivity | reflexivity | lia].
  - destruct m1 as [ | p | p]; try (exfalso; change (2 ^ 52) with 4503599627370496 in M; lia).
    exists p, 0.
    split; [lia | split; [rewrite Z.pow_0_r; lia | split; [lia | ]]].
    apply shr_fexp_exact; [lia | rewrite Z.pow_0_r; lia | | lia].
    apply digits2_pos_unique. change (53 - 1) with 52. lia.
Qed.

Lemma round_53 (q : positive) (r mn : Z) :
  0 < mn -> 0 <= r < mn ->
  let l := if r =? 0 then loc_Exact else loc_Inexact (2 * r ?= mn) in
  let m1 := round_nearest_even (Z.pos q) l in
  Z.pos q <= m1 <= Z.pos q + 1 /\
  2 * Z.abs (m1 * mn - (Z.pos q * mn + r)) <= mn.
Proof.
  intros N R. cbv zeta.
  destruct (r =? 0) eqn:Z0.
  - apply Z.eqb_eq in Z0. subst r. simpl round_nearest_even. split; [lia | ].
    replace (Z.pos q * mn - (Z.pos q * mn + 0)) with 0 by lia. simpl. lia.
  - apply Z.eqb_neq in Z0.
    destruct (Z.compare_spec (2 * r) mn) as [C | C | C];
      cbn [round_nearest_even].
    + destruct (Z.even (Z.pos q)); split; try lia.
    + split; lia.
    + split; lia.
Qed.

Lemma round_54 (q : positive) (r mn : Z) :
  2 <= Z.pos q -> 0 < mn -> 0 <= r < mn ->
  let l := if r =? 0 then loc_Exact else loc_Inexact (2 * r ?= mn) in
  let mrs := shr_1 (shr_record_of_loc (Z.pos q) l) in
  let m1 := round_nearest_even (shr_m mrs) (loc_of_shr_record mrs) in
  Z.pos q - 1 <= 2 * m1 <= Z.pos q + 1 /\
  Z.abs (2 * m1 * mn - (Z.pos q * mn + r)) <= mn.
Proof.
  intros Q N R. cbv zeta.
  destruct (r =? 0) eqn:Z0.
  - apply Z.eqb_eq in Z0. subst r.
    destruct q as [p | p | ]; [ | | lia];
      cbn [shr_record_of_loc shr_1 shr_m loc_of_shr_record
           round_nearest_even orb].
    + change (Z.pos p~1) with (2 * Z.pos p + 1).
      destruct (Z.even (Z.pos p)); split; lia.
    + change (Z.pos p~0) with (2 * Z.pos p). split; lia.
  - apply Z.eqb_neq in Z0.
    destruct (2 * r ?= mn);
      (destruct q as [p | p | ]; [ | | lia]);
      cbn [shr_record_of_loc shr_1 shr_m loc_of_shr_record
           round_nearest_even orb];
      try change (Z.pos p~1) with (2 * Z.pos p + 1);
      try change (Z.pos p~0) with (2 * Z.pos p);
      split; lia.
Qed.

Lemma shr_m_shr_record_of_loc (m : Z) (l : location) :
  shr_m (shr_record_of_loc m l) = m.
Proof. destruct l as [ | [ | | ]]; reflexivity. Qed.

(** Rounding a quotient of 53 or 54 digits with its remainder: the result is
    a 53-digit mantissa within half a unit in the last place of the exact
    quotient [q + r / mn]. *)
Lemma binary_round_aux_div (q : positive) (e r mn : Z) :
  2 ^ 52 <= Z.pos q < 2 ^ 54 -> 0 < mn -> 0 <= r < mn ->
  -1074 <= e <= 968 ->
  exists mf g,
    binary_round_aux prec emax false (Z.pos q) e
      (if r =? 0 then loc_Exact else loc_Inexact (2 * r ?= mn))
    = S754_finite false mf (e + g) /\
    0 <= g <= 2 /\
    2 ^ 52 <= Z.pos mf < 2 ^ 53 /\
    2 * Z.abs (Z.pos mf * 2 ^ g * mn - (Z.pos q * mn + r)) <= 2 ^ g * mn.
Proof.
  intros Q N R E. unfold binary_round_aux.
  destruct (Z.lt_ge_cases (Z.pos q) (2 ^ 53)) as [L | L].
  - rewrite shr_fexp_53 by lia. cbv beta iota.
    rewrite loc_of_shr_record_of_loc, shr_m_shr_record_of_loc.
    destruct (round_53 q r mn N R) as [B1 B2]. cbv zeta in B1, B2.
    set (m1 := round_nearest_even (Z.pos q)
                 (if r =? 0 then loc_Exact else loc_Inexact (2 * r ?= mn)))
      in *.
    destruct (shr_fexp_finish m1 e) as (mf & g & G & Em & Bm & Es);
      [lia | lia | ].
    rewrite Es. cbv beta iota. cbn [shr_m].
    replace (e + g <=? emax - prec) with true
      by (symmetry; apply Z.leb_le; unfold emax, prec; lia).
    exists mf, g. split; [reflexivity | split; [lia | split; [exact Bm | ]]].
    rewrite Em.
    assert (0 < 2 ^ g) by (apply Z.pow_pos_nonneg; lia). nia.
  - rewrite shr_fexp_54 by lia. cbv beta iota.
    destruct (round_54 q r mn) as [B1 B2]; [lia | exact N | exact R | ].
    cbv zeta in B1, B2.
    set (m1 := round_nearest_even _ _) in *.
    destruct (shr_fexp_finish m1 (e + 1)) as (mf & g & G & Em & Bm & Es);
      [change (2 ^ 53) with (2 * 2 ^ 52) in *;
       change (2 ^ 54) with (2 * (2 * 2 ^ 52)) in *; lia | lia | ].
    rewrite Es. cbv beta iota. cbn [shr_m].
    replace (e + 1 + g <=? emax - prec) with true
      by (symmetry; apply Z.leb_le; unfold emax, prec; lia).
    exists mf, (1 + g).
    split; [f_equal; lia | split; [lia | split; [exact Bm | ]]].
    rewrite Z.pow_add_r, Z.pow_1_r by lia.
    replace (Z.pos mf * (2 * 2 ^ g)) with (2 * m1) by lia.
    assert (0 < 2 ^ g) by (apply Z.pow_pos_nonneg; lia). nia.
Qed.

(** Division of two positive integers below 2^53: the quotient is finite,
    with a 53-digit mantissa [mf] and a scale [2^(-p)], [0 <= p], and it is
    the exact quotient rounded: [|mf / 2^p - s / n| <= 1 / 2^(p+1)]. *)
Lemma div_norm (s n : Z) :
  0 < s < 2 ^ 52 -> 0 < n < 2 ^ 53 ->
  exists mf p,
    div (norm s) (norm n) = S754_finite false mf (- p) /\
    0 <= p /\
    2 ^ 52 <= Z.pos mf < 2 ^ 53 /\
    2 * Z.abs (Z.pos mf * n - s * 2 ^ p) <= n.
Proof.
  intros S' N.
  assert (S : 0 < s < 2 ^ 53) by (change (2 ^ 53) with (2 * 2 ^ 52); lia).
  destruct (digits_bounds s S) as [Ds _].
  assert (Ds' : digits s <= 52).
  { unfold digits. assert (Z.log2 s < 52); [ | lia].
    apply Z.log2_lt_pow2; lia. }
  destruct (digits_bounds n N) as [Dn _].
  destruct (norm_mantissa s S) as [Ms Gs].
  destruct (norm_mantissa n N) as [Mn Gn].
  unfold div, norm, SFdiv, SFdiv_core_binary. cbn [Zdigits2 xorb].
  rewrite Gs, Gn.
  set (ms := Z.to_pos (s * 2 ^ (53 - digits s))) in *.
  set (mn := Z.to_pos (n * 2 ^ (53 - digits n))) in *.
  rewrite fexp_normal by lia.
  replace (Z.min (53 + (digits s - 53) - (53 + (digits n - 53)) - 53)
             (digits s - 53 - (digits n - 53)))
    with (digits s - digits n - 53) by lia.
  replace (digits s - 53 - (digits n - 53) - (digits s - digits n - 53))
    with 53 by lia.
  rewrite Z.shiftl_mul_pow2 by lia.
  pose proof (digits2_pos_bounds ms) as Bs. rewrite Gs in Bs.
  pose proof (digits2_pos_bounds mn) as Bn. rewrite Gn in Bn.
  change (53 - 1) with 52 in Bs, Bn.
  pose proof (Z_div_mod (Z.pos ms * 2 ^ 53) (Z.pos mn) eq_refl) as DM.
  destruct (Z.div_eucl (Z.pos ms * 2 ^ 53) (Z.pos mn)) as [q r].
  destruct DM as [DM R].
  rewrite new_location_spec by lia.
  assert (Q : 2 ^ 52 <= q < 2 ^ 54).
  { change (2 ^ 54) with (2 * 2 ^ 53).
    change (2 ^ 53) with (2 * 2 ^ 52) in *. nia. }
  destruct q as [ | q | q];
    try (exfalso; change (2 ^ 52) with 4503599627370496 in Q; lia).
  destruct (binary_round_aux_div q (digits s - digits n - 53) r (Z.pos mn))
    as (mf & g & E & G & Bm & B); [exact Q | lia | lia | lia | ].
  rewrite E. exists mf, (- (digits s - digits n - 53 + g)).
  assert (P : 0 <= - (digits s - digits n - 53 + g)) by lia.
  split; [f_equal; lia | split; [exact P | split; [exact Bm | ]]].
  set (p := - (digits s - digits n - 53 + g)) in *.
  (* scale the bound back from the mantissas to [s] and [n] *)
  assert (Hn : 0 < 2 ^ (53 - digits n)) by (apply Z.pow_pos_nonneg; lia).
  assert (Hg : 0 < 2 ^ g) by (apply Z.pow_pos_nonneg; lia).
  assert (Es : Z.pos ms * 2 ^ 53 = s * 2 ^ p * (2 ^ g * 2 ^ (53 - digits n))).
  { rewrite Ms, <- !Z.mul_assoc, <- !Z.pow_add_r by lia.
    do 2 f_equal. unfold p. lia. }
  rewrite (Z.mul_comm (Z.pos mn)) in DM. rewrite <- DM, Es, Mn in B.
  replace (Z.pos mf * 2 ^ g * (n * 2 ^ (53 - digits n)) -
           s * 2 ^ p * (2 ^ g * 2 ^ (53 - digits n)))
    with ((Z.pos mf * n - s * 2 ^ p) * (2 ^ g * 2 ^ (53 - digits n)))
    in B by ring.
  rewrite Z.abs_mul, (Z.abs_eq (2 ^ g * 2 ^ (53 - digits n))) in B by nia.
  nia.
Qed.

(** ** The average rating *)

Lemma tenths_nearest (mf : positive) (p s n : Z) :
  0 < s -> 0 < n -> 10 * s < 2 ^ 52 - 1 -> 0 <= p ->
  2 ^ 52 <= Z.pos mf < 2 ^ 53 ->
  2 * Z.abs (Z.pos mf * n - s * 2 ^ p) <= n ->
  toFixed1 (S754_finite false mf (- p))
  = Lit (tenths ((20 * Z.pos mf + 2 ^ p) / 2 ^ (1 + p))) /\
  nearest_tenth s n ((20 * Z.pos mf + 2 ^ p) / 2 ^ (1 + p)).
Proof.
  intros S N B P M R.
  assert (D : 0 < 2 ^ p) by (apply Z.pow_pos_nonneg; lia).
  (* the scale is finer than a twentieth of the divisor *)
  assert (F : 10 * n < 2 ^ p).
  { apply Z.nle_gt. intro C.
    assert (s * 2 ^ p <= s * (10 * n)) by (apply Z.mul_le_mono_nonneg_l; lia).
    assert (2 ^ 52 * n <= Z.pos mf * n)
      by (apply Z.mul_le_mono_nonneg_r; lia).
    assert ((2 ^ 52 - 1) * n <= s * 2 ^ p) by lia.
    assert (s * (10 * n) < (2 ^ 52 - 1) * n); [ | lia].
    rewrite Z.mul_assoc, (Z.mul_comm s 10).
    apply Z.mul_lt_mono_pos_r; lia. }
  assert (P' : 0 < p).
  { destruct (Z.eq_dec p 0) as [-> | ]; [rewrite Z.pow_0_r in F; lia | lia]. }
  split.
  - unfold toFixed1.
    replace (0 <=? - p) with false by (symmetry; apply Z.leb_gt; lia).
    replace (10 ^ 21 * 2 ^ (- - p) <=? Z.pos mf) with false.
    + rewrite Z.opp_involutive. replace (1 - - p) with (1 + p) by lia.
      reflexivity.
    + symmetry. apply Z.leb_gt. rewrite Z.opp_involutive.
      assert (2 ^ 53 < 10 ^ 21) by reflexivity. nia.
  - unfold nearest_tenth.
    rewrite Z.pow_add_r, Z.pow_1_r by lia.
    set (d := 2 ^ p) in *. set (m := Z.pos mf) in *.
    pose proof (Z.div_mod (20 * m + d) (2 * d)) as Q.
    pose proof (Z.mod_pos_bound (20 * m + d) (2 * d)) as Q'.
    set (t := (20 * m + d) / (2 * d)) in *.
    assert (T1 : 2 * d * t <= 20 * m + d) by lia.
    assert (T2 : 20 * m + d < 2 * d * t + 2 * d) by lia.
    assert (U : d * (20 * s - 2 * t * n - n) < d * 1) by nia.
    assert (L : d * (-1) < d * (20 * s - 2 * t * n + n)) by nia.
    apply Z.mul_lt_mono_pos_l in U; [ | exact D].
    apply Z.mul_lt_mono_pos_l in L; [ | exact D].
    lia.
Qed.

Lemma or_zero_of_Z (r : Z) :
  0 <= r < 2 ^ 53 -> or_zero (Some (of_Z r)) = of_Z r.
Proof.
  intro R. destruct (Z.eq_dec r 0) as [-> | N]; [reflexivity | ].
  rewrite of_Z_norm by lia. reflexivity.
Qed.

Lemma rating_of_range (com : option Comment.t) (r : Z) :
  rating_of com r -> 0 <= r <= 5.
Proof. intros (c & _ & [[_ ->] | [_ R]]); lia. Qed.

Lemma total_range (cs : list (option Comment.t)) (rs : list Z) :
  Forall2 rating_of cs rs ->
  0 <= total rs <= 5 * Z.of_nat (List.length cs).
Proof.
  induction 1 as [ | com r cs rs R _ IH].
  - simpl. lia.
  - apply rating_of_range in R. cbn [total fold_right List.length].
    fold (total rs). lia.
Qed.

(** On comment records with ratings in range, the sum that [reduce] builds
    in binary64 is the exact sum. *)
Lemma reduce_accumulate (cs : list (option Comment.t)) (rs : list Z) :
  Forall2 rating_of cs rs ->
  forall a, 0 <= a -> a + total rs < 2 ^ 53 ->
  reduce accumulate cs (of_Z a) = Ok (of_Z (a + total rs)).
Proof.
  induction 1 as [ | com r cs rs R F IH]; intros a A B.
  - simpl. rewrite Z.add_0_r. reflexivity.
  - pose proof (rating_of_range _ _ R) as Rr.
    pose proof (total_range _ _ F) as Tr.
    cbn [total fold_right] in B. fold (total rs) in B.
    assert (E : accumulate (of_Z a) com = Ok (of_Z (a + r))).
    { destruct R as (c & -> & [[C ->] | [C _]]);
        unfold accumulate; simpl; rewrite C.
      - simpl. rewrite <- of_Z_0, add_of_Z by lia. reflexivity.
      - rewrite or_zero_of_Z, add_of_Z by lia. reflexivity. }
    cbn [reduce]. rewrite E. simpl bind.
    rewrite IH by lia. cbn [total fold_right]. fold (total rs).
    f_equal. f_equal. lia.
Qed.

Lemma calculateAverageRating_unfold (e : Event.t)
    (c : option Comment.t) (cs : list (option Comment.t)) :
  Event.comentarios e = Some (c :: cs) ->
  calculateAverageRating (Some e)
  = (sum <- reduce accumulate (c :: cs) (of_Z 0) ;;
     Ok (toFixed1 (div sum (of_Z (Z.of_nat (List.length (c :: cs))))))).
Proof.
  intro E. unfold calculateAverageRating, get_comentarios. rewrite E.
  cbn [or_else bind is_null get_length].
  replace (Z.of_nat (List.length (c :: cs)) =? 0) with false; [reflexivity | ].
  symmetry. apply Z.eqb_neq. simpl List.length. lia.
Qed.

(** C2: the average rating of an event is ["N/A"] when its comment sequence
    is empty; otherwise, the comments being records with ratings 0..5 or no
    rating (counted as 0), it is the mean of the ratings rounded to one
    decimal place, that is a one-decimal value nearest to the mean; for the
    ratings 4 and 2 it is ["3.0"]. *)
Theorem calculateAverageRating_mean (e : Event.t)
    (cs : list (option Comment.t)) :
  Event.comentarios e = Some cs ->
  (cs = [] -> calculateAverageRating (Some e) = Ok (Lit "N/A")) /\
  (forall rs,
     cs <> [] -> Forall2 rating_of cs rs ->
     Z.of_nat (List.length cs) < 2 ^ 32 ->
     exists t,
       calculateAverageRating (Some e) = Ok (Lit (tenths t)) /\
       nearest_tenth (total rs) (Z.of_nat (List.length cs)) t) /\
  (forall c1 c2,
     cs = [Some c1; Some c2] ->
     Comment.classificacao c1 = Some (of_Z 4) ->
     Comment.classificacao c2 = Some (of_Z 2) ->
     calculateAverageRating (Some e) = Ok (Lit "3.0")).
Proof.
  intro E. split; [ | split].
  - intros ->. unfold calculateAverageRating, get_comentarios. rewrite E.
    reflexivity.
  - intros rs N F L.
    destruct cs as [ | c cs']; [congruence | ].
    rewrite (calculateAverageRating_unfold e c cs' E).
    pose proof (total_range _ _ F) as T.
    set (n := Z.of_nat (List.length (c :: cs'))) in *.
    assert (Npos : 0 < n) by (unfold n; simpl List.length; lia).
    change (2 ^ 32) with 4294967296 in L.
    rewrite (reduce_accumulate _ _ F 0) by (change (2 ^ 53) with 9007199254740992; lia).
    cbn [bind]. rewrite Z.add_0_l.
    destruct (Z.eq_dec (total rs) 0) as [Z0 | NZ].
    + rewrite Z0. exists 0. split.
      * rewrite of_Z_0, of_Z_norm by (change (2 ^ 53) with 9007199254740992; lia).
        reflexivity.
      * unfold nearest_tenth. simpl. lia.
    + rewrite !of_Z_norm by (change (2 ^ 53) with 9007199254740992; lia).
      destruct (div_norm (total rs) n) as (mf & p & D & P & M & R).
      * change (2 ^ 52) with 4503599627370496. lia.
      * change (2 ^ 53) with 9007199254740992. lia.
      * rewrite D.
        destruct (tenths_nearest mf p (total rs) n) as [X Y];
          try assumption; try lia.
        exists ((20 * Z.pos mf + 2 ^ p) / 2 ^ (1 + p)).
        rewrite X. split; [reflexivity | exact Y].
  - intros c1 c2 -> C1 C2.
    rewrite (calculateAverageRating_unfold e _ _ E).
    unfold accumulate, get_classificacao. cbn [reduce bind].
    rewrite C1, C2. reflexivity.
Qed.

(** Ties go the way of the binary64 quotient: a mean of 0.25 is shown as
    ["0.3"], and so is a mean of 0.35, whose quotient lies just below. *)
Lemma toFixed1_quarter : toFixed1 (div (of_Z 1) (of_Z 4)) = Lit "0.3".
Proof. reflexivity. Qed.

Lemma toFixed1_seven_twentieths :
  toFixed1 (div (of_Z 7) (of_Z 20)) = Lit "0.3".
Proof. reflexivity. Qed.

Lemma reduce_accumulate_Ok (cs : list (option Comment.t)) :
  Forall (fun com => com <> None) cs ->
  forall acc, exists sum, reduce accumulate cs acc = Ok sum.
Proof.
  induction 1 as [ | com cs C _ IH]; intro acc.
  - exists acc. reflexivity.
  - destruct com as [c | ]; [ | congruence].
    cbn [reduce accumulate get_classificacao bind]. apply IH.
Qed.

(** C10, as amended: the average rating is ["N/A"], and nothing is raised,
    for a [null] or [undefined] event and for an event whose comment
    sequence is absent or empty; and nothing is raised for an event whose
    comment sequence holds comment records only. *)
Theorem calculateAverageRating_total :
  calculateAverageRating None = Ok (Lit "N/A") /\
  (forall e, Event.comentarios e = None ->
             calculateAverageRating (Some e) = Ok (Lit "N/A")) /\
  (forall e, Event.comentarios e = Some [] ->
             calculateAverageRating (Some e) = Ok (Lit "N/A")) /\
  (forall e cs, Event.comentarios e = Some cs ->
                Forall (fun com => com <> None) cs ->
                exists t, calculateAverageRating (Some e) = Ok t).
Proof.
  split; [reflexivity | split; [ | split]].
  - intros e E. unfold calculateAverageRating, get_comentarios. rewrite E.
    reflexivity.
  - intros e E. unfold calculateAverageRating, get_comentarios. rewrite E.
    reflexivity.
  - intros e cs E F. destruct cs as [ | c cs].
    + exists (Lit "N/A").
      unfold calculateAverageRating, get_comentarios. rewrite E. reflexivity.
    + rewrite (calculateAverageRating_unfold e c cs E).
      destruct (reduce_accumulate_Ok (c :: cs) F (of_Z 0)) as [sum R].
      rewrite R. cbn [bind]. eexists. reflexivity.
Qed.

(** C10, as stated, fails: a [null] entry in the comment sequence makes the
    function raise a [TypeError]. *)
Lemma calculateAverageRating_raises :
  calculateAverageRating event_with_null_comment
  = Throw (TypeError "classificacao").
Proof. reflexivity. Qed.

(** ** The handlers *)

Section HandlerFacts.
Context `{Host}.

Lemma receive_failed {A : Type} (fixed : string) (o : fetched A) :
  failed o ->
  exists e, receive fixed o = Throw e /\
            failure_message fixed o = Some (message e).
Proof.
  destruct o as [e | status b]; simpl.
  - intros _. exists e. auto.
  - intros [S | (e & ->)].
    + rewrite S. simpl. exists (Error fixed). auto.
    + destruct (ok status); simpl.
      * exists e. auto.
      * exists (Error fixed). auto.
Qed.

Lemma with_comentarios_same (e : Event.t) (cs : list (option Comment.t)) :
  Event.comentarios e = Some cs -> Event.with_comentarios e cs = e.
Proof. destruct e. simpl. intros ->. reflexivity. Qed.

(** C5: when the creation succeeds, the collection becomes the input
    collection with the created event appended at the end, and the appended
    event has a comment sequence: the one of the response, or the empty
    sequence when the response has none. *)
Theorem handleSubmitNewEvent_appends (s : State) (status : Z)
    (createdEvent : Event.t) :
  ok status = true ->
  exists event,
    events (handleSubmitNewEvent s (Responds status (Json (Some createdEvent))))
    = (events s ++ [Some event])%list /\
    Event.comentarios event
    = Some (or_empty (Event.comentarios createdEvent)) /\
    (Event.comentarios createdEvent = None ->
     Event.comentarios event = Some []) /\
    (Event.comentarios createdEvent <> None -> event = createdEvent) /\
    Event.id event = Event.id createdEvent /\
    Event.nome event = Event.nome createdEvent /\
    Event.data event = Event.data createdEvent /\
    Event.duracao_qtd event = Event.duracao_qtd createdEvent /\
    Event.duracao_tipo event = Event.duracao_tipo createdEvent.
Proof.
  intro S.
  exists (Event.with_comentarios createdEvent
            (or_empty (Event.comentarios createdEvent))).
  unfold handleSubmitNewEvent, receive. rewrite S. simpl.
  repeat split.
  - intros ->. reflexivity.
  - intro N. destruct (Event.comentarios createdEvent) as [cs | ] eqn:C;
      [ | congruence].
    apply with_comentarios_same. exact C.
Qed.

(** C7, as amended: a failure of any of the three calls is stored in the one
    [error] cell; for a status that is no success the message is fixed per
    call, whatever the status; for a transport or parsing failure it is the
    message of the error thrown. *)
Theorem failure_sets_error (s : State) :
  (forall o, failed o ->
     exists m, failure_message "Failed to fetch events" o = Some m /\
               error (fetchData s o) = Some m) /\
  (forall o, failed o ->
     exists m, failure_message "Failed to create event" o = Some m /\
               error (handleSubmitNewEvent s o) = Some m) /\
  (forall eventId o, failed o ->
     exists m, failure_message "Failed to create comment" o = Some m /\
               error (handleSubmitNewComment s eventId o) = Some m) /\
  (forall status status',
     ok status = false -> ok status' = false ->
     (forall b b',
        fetchData s (Responds status b) = fetchData s (Responds status' b')) /\
     (forall b b',
        handleSubmitNewEvent s (Responds status b)
        = handleSubmitNewEvent s (Responds status' b')) /\
     (forall eventId b b',
        handleSubmitNewComment s eventId (Responds status b)
        = handleSubmitNewComment s eventId (Responds status' b'))).
Proof.
  split; [ | split; [ | split]].
  - intros o F. destruct (receive_failed "Failed to fetch events" o F)
      as (e & R & M).
    exists (message e). split; [exact M | ].
    unfold fetchData. rewrite R. reflexivity.
  - intros o F. destruct (receive_failed "Failed to create event" o F)
      as (e & R & M).
    exists (message e). split; [exact M | ].
    unfold handleSubmitNewEvent. rewrite R. reflexivity.
  - intros eventId o F.
    destruct (receive_failed "Failed to create comment" o F) as (e & R & M).
    exists (message e). split; [exact M | ].
    unfold handleSubmitNewComment. rewrite R. reflexivity.
  - intros status status' S S'.
    unfold fetchData, handleSubmitNewEvent, handleSubmitNewComment, receive.
    rewrite S, S'. simpl. auto.
Qed.

(** C9: when the creation of an event or of a comment fails, the state is
    the state before with the error recorded: the collection of events is
    the same. *)
Theorem failure_keeps_events (s : State) :
  (forall o, failed o ->
     events (handleSubmitNewEvent s o) = events s /\
     exists m, handleSubmitNewEvent s o = setError m s) /\
  (forall eventId o, failed o ->
     events (handleSubmitNewComment s eventId o) = events s /\
     exists m, handleSubmitNewComment s eventId o = setError m s).
Proof.
  split.
  - intros o F. destruct (receive_failed "Failed to create event" o F)
      as (e & R & _).
    unfold handleSubmitNewEvent. rewrite R. simpl.
    split; [reflexivity | exists (message e); reflexivity].
  - intros eventId o F.
    destruct (receive_failed "Failed to create comment" o F) as (e & R & _).
    unfold handleSubmitNewComment. rewrite R. simpl.
    split; [reflexivity | exists (message e); reflexivity].
Qed.
End HandlerFacts.

(** C7, as stated, fails: the same server error leaves a different message
    for each call, and a rejected [fetch] leaves yet another. *)
Lemma failure_messages_differ :
  error (@fetchData example_host initialState (Responds 500 (JsonFails (Error ""))))
  = Some "Failed to fetch events" /\
  error (@handleSubmitNewEvent example_host initialState
           (Responds 500 (JsonFails (Error ""))))
  = Some "Failed to create event" /\
  error (@handleSubmitNewEvent example_host initialState
           (Rejects (Error "Failed to fetch")))
  = Some "Failed to fetch" /\
  "Failed to fetch events" <> "Failed to create event" /\
  "Failed to create event" <> "Failed to fetch".
Proof.
  repeat split; discriminate.
Qed.

(** ** Reachable states *)

Lemma map_result_Ok {A B : Type} (f : A -> result B) (l : list A)
    (l' : list B) :
  map_result f l = Ok l' -> Forall2 (fun x y => f x = Ok y) l l'.
Proof.
  revert l'. induction l as [ | x l IH]; intros l' E; simpl in E.
  - injection E as <-. constructor.
  - apply bind_Ok in E. destruct E as (y & Fx & E).
    apply bind_Ok in E. destruct E as (ys & Fl & E).
    injection E as <-. constructor; [exact Fx | apply IH; exact Fl].
Qed.



Lemma Forall2_In_r {A B : Type} (R : A -> B -> Prop) (l : list A)
    (l' : list B) (y : B) :
  Forall2 R l l' -> In y l' -> exists x, In x l /\ R x y.
Proof.
  induction 1 as [ | a b l l' Rab _ IH]; intro I; [contradiction | ].
  destruct I as [-> | I].
  - exists a. split; [left; reflexivity | exact Rab].
  - destruct (IH I) as (x & Ix & Rx). exists x. split; [right | ]; assumption.
Qed.

Lemma eventWithComments_record (event event' : value) :
  eventWithComments event = Ok event' -> event' <> None.
Proof.
  destruct event as [e | ]; simpl; intro E; [ | discriminate].
  injection E as <-. discriminate.
Qed.

Lemma updateEvent_record (eventId : Id) (c : option Comment.t)
    (event event' : value) :
  updateEvent eventId c event = Ok event' -> event' <> None.
Proof.
  destruct event as [e | ]; simpl; [ | discriminate].
  destruct (strict_eq (Event.id e) eventId); intro E; injection E as <-;
    discriminate.
Qed.





Lemma eventWithComments_defaulted (event event' : value) :
  eventWithComments event = Ok event' ->
  exists e, event = Some e /\ event' = Some (defaulted e).
Proof.
  destruct event as [e | ]; simpl; intro E; [ | discriminate].
  injection E as <-. exists e. auto.
Qed.

Lemma updateEvent_normalised (eventId : Id) (c : option Comment.t)
    (event event' : value) :
  updateEvent eventId c event = Ok event' ->
  normalised event -> normalised event'.
Proof.
  intros U (e & cs & -> & C). simpl in U.
  destruct (strict_eq (Event.id e) eventId); injection U as <-.
  - eexists. eexists. split; reflexivity.
  - exists e, cs. auto.
Qed.

Lemma normalised_record (event : value) : normalised event -> event <> None.
Proof. intros (e & cs & -> & _). discriminate. Qed.


Section ReachableFacts.
Context `{Host}.

Lemma insert_Permutation (x : value) (l l' : list value) :
  insert x l = Ok l' -> Permutation (x :: l) l'.
Proof.
  revert l'. induction l as [ | y l IH]; intros l' E; simpl in E.
  - injection E as <-. apply Permutation_refl.
  - apply bind_Ok in E. destruct E as (v & _ & E).
    destruct (0 <? v).
    + apply bind_Ok in E. destruct E as (r & I & E). injection E as <-.
      eapply perm_trans; [apply perm_swap | ].
      apply perm_skip. apply IH. exact I.
    + injection E as <-. apply Permutation_refl.
Qed.

Lemma sort_Permutation (l l' : list value) :
  sort l = Ok l' -> Permutation l l'.
Proof.
  revert l'. induction l as [ | x l IH]; intros l' E; simpl in E.
  - injection E as <-. constructor.
  - apply bind_Ok in E. destruct E as (s & S & I).
    eapply perm_trans; [apply perm_skip, IH, S | ].
    apply insert_Permutation. exact I.
Qed.

Lemma shown_In (s : State) (event : value) :
  shown s event -> In event (events s).
Proof.
  intros (l & S & I). unfold sortedEvents in S.
  apply sort_Permutation in S.
  apply (Permutation_in _ (Permutation_sym S)) in I.
  eapply filteredEvents_incl. exact I.
Qed.

(** The handlers when the response arrives in the state of the submission. *)
Lemma handleSubmitNewEvent_resume (s : State) (o : fetched value) :
  handleSubmitNewEvent s o = resumeSubmitNewEvent s s o.
Proof. reflexivity. Qed.

Lemma handleSubmitNewComment_resume (s : State) (eventId : Id)
    (o : fetched (option Comment.t)) :
  handleSubmitNewComment s eventId o = resumeSubmitNewComment s s eventId o.
Proof. reflexivity. Qed.

Lemma fetchData_cases (s : State) (o : fetched (option (list value))) :
  (exists m, fetchData s o
             = setLoading false (setError m (setLoading true s))) \/
  (exists l evs,
     map_result eventWithComments l = Ok evs /\
     fetchData s o = setLoading false (setEvents evs (setLoading true s))).
Proof.
  unfold fetchData.
  destruct (receive "Failed to fetch events" o) as [[l | ] | e]; cbn [bind].
  - unfold eventsWithComments.
    destruct (map_result eventWithComments l) as [evs | e] eqn:E.
    + right. exists l, evs. auto.
    + left. eexists. reflexivity.
  - left. eexists. reflexivity.
  - left. eexists. reflexivity.
Qed.

Lemma resumeSubmitNewEvent_cases (render s : State) (o : fetched value) :
  (exists m, resumeSubmitNewEvent render s o = setError m s) \/
  (exists e,
     resumeSubmitNewEvent render s o
     = setNewEvent NewEvent.initial
         (setShowNewEventForm false
            (setEvents (events render ++ [Some (defaulted e)])%list s))).
Proof.
  unfold resumeSubmitNewEvent.
  destruct (receive "Failed to create event" o) as [[e | ] | x]; cbn.
  - right. exists e. reflexivity.
  - left. eexists. reflexivity.
  - left. eexists. reflexivity.
Qed.

Lemma resumeSubmitNewComment_cases (render s : State) (eventId : Id)
    (o : fetched (option Comment.t)) :
  (exists m, resumeSubmitNewComment render s eventId o = setError m s) \/
  (exists c updated,
     updatedEvents (events render) eventId c = Ok updated /\
     resumeSubmitNewComment render s eventId o
     = setNewComment NewComment.initial
         (setShowNewCommentForm IdNull
            (match selectedEvent render with
             | Some sel =>
                 if strict_eq (Event.id sel) eventId
                 then setSelectedEvent (Some (withNewComment c sel))
                        (setEvents updated s)
                 else setEvents updated s
             | None => setEvents updated s
             end))).
Proof.
  unfold resumeSubmitNewComment.
  destruct (receive "Failed to create comment" o) as [c | x]; cbn [bind].
  - destruct (updatedEvents (events render) eventId c) as [updated | x] eqn:U;
      cbn [bind try_catch].
    + right. exists c, updated. auto.
    + left. eexists. reflexivity.
  - left. eexists. reflexivity.
Qed.

Lemma rendered_loading (s : State) : rendered s = true -> loading s = false.
Proof.
  unfold rendered. intro R. apply andb_true_iff in R.
  destruct R as [R _]. apply negb_true_iff in R. exact R.
Qed.

Lemma rendered_error (s : State) :
  rendered s = true -> truthy_opt_string (error s) = false.
Proof.
  unfold rendered. intro R. apply andb_true_iff in R.
  destruct R as [_ R]. apply negb_true_iff in R. exact R.
Qed.

(** ** Runs *)

Lemma next_loading (past : list State) (s s' : State) :
  (past = [] /\ s = initialState) \/ loading s = false ->
  next past s s' -> loading s' = false.
Proof.
  intros L N.
  assert (R : forall render,
            In render (s :: past) -> rendered render = true ->
            loading s = false).
  { intros render I Rd. destruct L as [(-> & ->) | L]; [ | exact L].
    destruct I as [<- | []]. discriminate. }
  destruct N as [o Ld | x Rd | x Rd | Rd | Rd _ | f Rd _ | event s' Rd Sh T
                | e Rd _ | e Rd _ | e f Rd _ | render o I (Rd & _)
                | render e o I (Rd & _)];
    try (apply rendered_loading in Rd; exact Rd).
  - destruct (fetchData_cases s o) as [(m & ->) | (l & evs & _ & ->)];
      reflexivity.
  - apply rendered_loading in Rd.
    destruct event as [e | ]; simpl in T; [ | discriminate].
    injection T as <-. exact Rd.
  - specialize (R render I Rd).
    destruct (resumeSubmitNewEvent_cases render s o) as [(m & ->) | (e & ->)];
      exact R.
  - specialize (R render I Rd).
    destruct (resumeSubmitNewComment_cases render s (Event.id e) o)
      as [(m & ->) | (c & updated & _ & ->)]; [exact R | ].
    destruct (selectedEvent render) as [sel | ]; [ | exact R].
    destruct (strict_eq (Event.id sel) (Event.id e)); exact R.
Qed.

Lemma run_loading (h : list State) :
  run h ->
  forall s past, h = s :: past ->
                 (past = [] /\ s = initialState) \/ loading s = false.
Proof.
  induction 1 as [ | past s s' _ IH N]; intros x p E; injection E as <- <-.
  - left. auto.
  - right. apply (next_loading past s s'); [ | exact N].
    apply IH. reflexivity.
Qed.

Lemma step_loading (s s' : State) : step s s' -> loading s' = false.
Proof.
  intros (past & R & N). apply (next_loading past s s'); [ | exact N].
  apply (run_loading _ R). reflexivity.
Qed.

Lemma reachable_loading (s : State) :
  reachable s -> loading s = true -> s = initialState.
Proof.
  intros (past & R) L.
  destruct (run_loading _ R s past eq_refl) as [(_ & E) | E];
    [exact E | congruence].
Qed.

Lemma reachable_initial : reachable initialState.
Proof. exists []. constructor. Qed.

Lemma reachable_step (s s' : State) : reachable s -> step s s' -> reachable s'.
Proof.
  intros _ (past & R & N). exists (s :: past). constructor; assumption.
Qed.

Lemma run_tail (s : State) (past : list State) :
  run (s :: past) -> past <> [] -> run past.
Proof.
  intro R. inversion R as [ | p x y R' N]; subst; [congruence | ].
  intros _. exact R'.
Qed.

Lemma run_In (h : list State) (x : State) : run h -> In x h -> reachable x.
Proof.
  induction h as [ | s past IH]; intros R I; [contradiction | ].
  destruct I as [<- | I].
  - exists past. exact R.
  - apply IH; [ | exact I].
    apply (run_tail s past R). intros ->. contradiction.
Qed.

Lemma next_normalised (past : list State) (s s' : State) :
  Forall all_normalised (s :: past) -> next past s s' -> all_normalised s'.
Proof.
  intros F N.
  assert (K : all_normalised s) by (inversion F; assumption).
  destruct N as [o Ld | x Rd | x Rd | Rd | Rd _ | f Rd _ | event s' Rd Sh T
                | e Rd _ | e Rd _ | e f Rd _ | render o I _
                | render e o I _];
    try exact K.
  - destruct K as (Kn & Ks).
    destruct (fetchData_cases s o) as [(m & ->) | (l & evs & M & ->)];
      [split; assumption | ].
    split; [ | exact Ks].
    simpl. apply map_result_Ok in M.
    apply Forall_forall. intros y Iy.
    destruct (Forall2_In_r _ _ _ _ M Iy) as (x & _ & W).
    apply eventWithComments_defaulted in W. destruct W as (e & _ & ->).
    eexists. eexists. split; reflexivity.
  - destruct K as (Kn & Ks).
    destruct event as [e | ]; simpl in T; [ | discriminate].
    injection T as <-. split; [exact Kn | ].
    intros sel E. simpl in E. injection E as <-.
    apply shown_In in Sh.
    destruct (proj1 (Forall_forall _ _) Kn _ Sh) as (e' & cs & E & C).
    injection E as <-. exists cs. exact C.
  - destruct K as (Kn & Ks).
    destruct (proj1 (Forall_forall _ _) F render I) as (Rn & _).
    destruct (resumeSubmitNewEvent_cases render s o) as [(m & ->) | (e & ->)];
      [split; assumption | ].
    split; [ | exact Ks].
    simpl. apply Forall_app. split; [exact Rn | ].
    constructor; [ | constructor].
    eexists. eexists. split; reflexivity.
  - destruct K as (Kn & Ks).
    destruct (proj1 (Forall_forall _ _) F render I) as (Rn & _).
    destruct (resumeSubmitNewComment_cases render s (Event.id e) o)
      as [(m & ->) | (c & updated & U & ->)]; [split; assumption | ].
    assert (F' : Forall normalised updated).
    { apply map_result_Ok in U.
      apply Forall_forall. intros y Iy.
      destruct (Forall2_In_r _ _ _ _ U Iy) as (x & Ix & W).
      apply (updateEvent_normalised _ _ _ _ W).
      apply (proj1 (Forall_forall _ _) Rn x Ix). }
    destruct (selectedEvent render) as [sel | ]; [ | split; assumption].
    destruct (strict_eq (Event.id sel) (Event.id e)); [ | split; assumption].
    split; [exact F' | ].
    intros sel' E. simpl in E. injection E as <-.
    eexists. reflexivity.
Qed.

Lemma run_normalised (h : list State) : run h -> Forall all_normalised h.
Proof.
  induction 1 as [ | past s s' _ IH N].
  - constructor; [ | constructor].
    split; [constructor | discriminate].
  - constructor; [ | exact IH].
    apply (next_normalised past s s' IH N).
Qed.

Lemma reachable_all_normalised (s : State) : reachable s -> all_normalised s.
Proof.
  intros (past & R). pose proof (run_normalised _ R) as F.
  inversion F. assumption.
Qed.

Lemma reachable_records (s : State) :
  reachable s -> Forall (fun event => event <> None) (events s).
Proof.
  intro R. destruct (reachable_all_normalised s R) as (F & _).
  eapply Forall_impl; [ | exact F].
  intro event. apply normalised_record.
Qed.

End ReachableFacts.

(** ** The update on the heap *)

Local Open Scope list_scope.

Lemma filter_one_split {A : Type} (f : A -> bool) (l : list A) :
  List.length (filter f l) = 1%nat ->
  exists l1 x l2,
    l = (l1 ++ x :: l2)%list /\ f x = true /\
    Forall (fun y => f y = false) l1 /\ Forall (fun y => f y = false) l2.
Proof.
  induction l as [ | a l IH]; simpl; [discriminate | ].
  destruct (f a) eqn:Fa; simpl; intro L.
  - exists [], a, l. repeat split; [exact Fa | constructor | ].
    apply Forall_forall. intros y Iy.
    destruct (f y) eqn:Fy; [ | reflexivity].
    assert (J : In y (filter f l)) by (apply filter_In; auto).
    destruct (filter f l); [contradiction | discriminate].
  - destruct (IH L) as (l1 & x & l2 & -> & Fx & F1 & F2).
    exists (a :: l1), x, l2. repeat split; try assumption.
    constructor; assumption.
Qed.

Lemma read_extend (h ext : Heap.heap) (r : Heap.reference) :
  (exists a, r = Some a /\ (a < List.length h)%nat) ->
  Heap.read (h ++ ext) r = Heap.read h r.
Proof.
  intros (a & -> & L). simpl. apply nth_error_app1. exact L.
Qed.

Lemma view_extend (h ext : Heap.heap) (refs : list Heap.reference) :
  Heap.well_formed h refs ->
  Heap.view (h ++ ext) refs = Heap.view h refs.
Proof.
  induction 1 as [ | r refs W _ IH]; simpl; [reflexivity | ].
  rewrite IH. f_equal. apply read_extend. exact W.
Qed.

Lemma view_app (h : Heap.heap) (l1 l2 : list Heap.reference) :
  Heap.view h (l1 ++ l2) = Heap.view h l1 ++ Heap.view h l2.
Proof. apply map_app. Qed.

Lemma view_cons (h : Heap.heap) (r : Heap.reference)
    (l : list Heap.reference) :
  Heap.view h (r :: l) = Heap.read h r :: Heap.view h l.
Proof. reflexivity. Qed.

(** References to events of another id are returned as they are, and
    nothing is allocated. *)
Lemma map_heap_others (eventId : Id) (c : option Comment.t)
    (h ext : Heap.heap) (refs : list Heap.reference) :
  Heap.well_formed h refs ->
  Forall (fun r => has_id eventId (Heap.read h r) = false) refs ->
  Heap.map_heap (Heap.updateEvent eventId c) (h ++ ext) refs
  = Ok ((h ++ ext)%list, refs).
Proof.
  intros W. induction W as [ | r refs Wr _ IH]; intro F; [reflexivity | ].
  inversion F as [ | ? ? Fr F']; subst.
  cbn [Heap.map_heap]. unfold Heap.updateEvent at 1.
  rewrite (read_extend h ext r Wr).
  destruct Wr as (a & -> & L).
  destruct (Heap.read h (Some a)) as [e | ] eqn:R.
  - simpl in Fr. rewrite Fr. cbn [bind fst snd]. rewrite (IH F'). reflexivity.
  - simpl in R. apply nth_error_None in R. lia.
Qed.

Lemma map_heap_app (f : Heap.heap -> Heap.reference ->
                        result (Heap.heap * Heap.reference))
    (h : Heap.heap) (l1 l2 : list Heap.reference) :
  Heap.map_heap f h (l1 ++ l2)
  = (p <- Heap.map_heap f h l1 ;;
     q <- Heap.map_heap f (fst p) l2 ;;
     Ok (fst q, (snd p ++ snd q)%list)).
Proof.
  revert h. induction l1 as [ | r l1 IH]; intro h; simpl.
  - destruct (Heap.map_heap f h l2) as [[h' l'] | e]; reflexivity.
  - destruct (f h r) as [[h1 r'] | e]; [ | reflexivity]. simpl.
    rewrite IH.
    destruct (Heap.map_heap f h1 l1) as [[h2 l'] | e]; [ | reflexivity].
    simpl.
    destruct (Heap.map_heap f h2 l2) as [[h3 l''] | e]; reflexivity.
Qed.

(** The heap update computes what the update on values computes. *)
Lemma updatedEvents_view (eventId : Id) (c : option Comment.t)
    (refs : list Heap.reference) : forall (h h' : Heap.heap) refs',
  Heap.well_formed h refs ->
  Heap.updatedEvents h refs eventId c = Ok (h', refs') ->
  updatedEvents (Heap.view h refs) eventId c = Ok (Heap.view h' refs') /\
  exists ext, h' = (h ++ ext)%list.
Proof.
  unfold Heap.updatedEvents, updatedEvents.
  induction refs as [ | r refs IH]; intros h h' refs' W E.
  - simpl in E. injection E as <- <-. split; [reflexivity | ].
    exists []. rewrite app_nil_r. reflexivity.
  - inversion W as [ | ? ? Wr W']; subst.
    cbn [Heap.map_heap] in E. apply bind_Ok in E.
    destruct E as ([h1 r1] & U & E). apply bind_Ok in E.
    destruct E as ([h2 l2] & M & E). cbn [fst snd] in M, E.
    injection E as <- <-.
    unfold Heap.updateEvent in U.
    destruct (Heap.read h r) as [e | ] eqn:R; [ | discriminate].
    assert (X : exists ext1, h1 = (h ++ ext1)%list /\
                Heap.read h1 r1
                = (if strict_eq (Event.id e) eventId
                   then Some (withNewComment c e) else Some e) /\
                exists a, r1 = Some a /\ (a < List.length h1)%nat).
    { destruct (strict_eq (Event.id e) eventId).
      - simpl in U. injection U as <- <-.
        exists [withNewComment c e]. split; [reflexivity | split].
        + simpl. rewrite nth_error_app2 by lia.
          rewrite Nat.sub_diag. reflexivity.
        + exists (List.length h). split; [reflexivity | ].
          rewrite length_app. simpl. lia.
      - injection U as <- <-. exists []. rewrite app_nil_r.
        split; [reflexivity | split; [exact R | exact Wr]]. }
    destruct X as (ext1 & -> & R1 & Wr1).
    assert (W1 : Heap.well_formed (h ++ ext1) refs).
    { eapply Forall_impl; [ | exact W'].
      intros x (a & -> & L). exists a. split; [reflexivity | ].
      rewrite length_app. lia. }
    destruct (IH _ _ _ W1 M) as (V & ext2 & ->).
    rewrite (view_extend h ext1 refs W') in V.
    split.
    + cbn [Heap.view map map_result]. rewrite R.
      fold (Heap.view h refs). rewrite V. cbn [updateEvent].
      rewrite (read_extend (h ++ ext1) ext2 r1 Wr1), R1.
      destruct (strict_eq (Event.id e) eventId); reflexivity.
    + exists (ext1 ++ ext2)%list. rewrite app_assoc. reflexivity.
Qed.

(** C4: on an events array in which one event only has the given id, the
    update returns an array of the same length and order in which the
    reference at the place of that event points to a record allocated by
    the update, equal to the event but for its comment sequence, which is
    the former one with the new comment at the end, or the new comment
    alone when the event had no comment sequence; every other reference is
    the one of the input; and the heap is the former heap with that one
    record added, so that no record was changed in place. *)
Theorem updatedEvents_frame (h : Heap.heap) (refs : list Heap.reference)
    (eventId : Id) (createdComment : option Comment.t) :
  Heap.well_formed h refs ->
  List.length (filter (has_id eventId) (Heap.view h refs)) = 1%nat ->
  exists l1 a e l2,
    refs = (l1 ++ Some a :: l2)%list /\
    nth_error h a = Some e /\ Event.id e = eventId /\
    Forall (fun r => has_id eventId (Heap.read h r) = false) (l1 ++ l2) /\
    let e' := withNewComment createdComment e in
    let h' := (h ++ [e'])%list in
    let refs' := (l1 ++ Some (List.length h) :: l2)%list in
    Heap.updatedEvents h refs eventId createdComment = Ok (h', refs') /\
    updatedEvents (Heap.view h refs) eventId createdComment
    = Ok (Heap.view h' refs') /\
    Heap.view h' refs'
    = (Heap.view h l1 ++ Some e' :: Heap.view h l2)%list /\
    Heap.view h' refs = Heap.view h refs /\
    Event.comentarios e'
    = Some (or_empty (Event.comentarios e) ++ [createdComment])%list /\
    (forall cs, Event.comentarios e = Some cs ->
                Event.comentarios e' = Some (cs ++ [createdComment])%list) /\
    (Event.comentarios e = None ->
     Event.comentarios e' = Some [createdComment]) /\
    Event.id e' = Event.id e /\ Event.nome e' = Event.nome e /\
    Event.data e' = Event.data e /\
    Event.duracao_qtd e' = Event.duracao_qtd e /\
    Event.duracao_tipo e' = Event.duracao_tipo e.
Proof.
  intros W One.
  assert (One' : List.length
                   (filter (fun r => has_id eventId (Heap.read h r)) refs)
                 = 1%nat).
  { rewrite <- One. unfold Heap.view. clear.
    induction refs as [ | r refs IH]; simpl; [reflexivity | ].
    destruct (has_id eventId (Heap.read h r)); simpl; congruence. }
  destruct (filter_one_split _ _ One') as (l1 & r & l2 & -> & Fr & F1 & F2).
  apply Forall_app in W. destruct W as [W1 W2].
  inversion W2 as [ | ? ? Wr W2']; subst.
  destruct Wr as (a & -> & L).
  destruct (nth_error h a) as [e | ] eqn:R;
    [ | apply nth_error_None in R; lia].
  assert (Ide : Event.id e = eventId).
  { simpl in Fr. rewrite R in Fr. simpl in Fr. unfold strict_eq in Fr.
    destruct (Id_eq_dec (Event.id e) eventId); [assumption | discriminate]. }
  exists l1, a, e, l2.
  split; [reflexivity | split; [exact R | split; [exact Ide | ]]].
  split; [apply Forall_app; split; assumption | ].
  cbv zeta.
  assert (U : Heap.updatedEvents h (l1 ++ Some a :: l2) eventId createdComment
              = Ok ((h ++ [withNewComment createdComment e])%list,
                    (l1 ++ Some (List.length h) :: l2)%list)).
  { unfold Heap.updatedEvents. rewrite map_heap_app.
    pose proof (map_heap_others eventId createdComment h [] l1 W1 F1) as M1.
    rewrite app_nil_r in M1. rewrite M1. cbn [bind fst snd Heap.map_heap].
    unfold Heap.updateEvent at 1. simpl Heap.read. rewrite R.
    simpl in Fr. rewrite R in Fr. simpl in Fr. rewrite Fr.
    cbn [Heap.alloc bind fst snd].
    rewrite (map_heap_others eventId createdComment h _ l2 W2' F2).
    reflexivity. }
  split; [exact U | ].
  assert (Wf : Heap.well_formed h (l1 ++ Some a :: l2)).
  { apply Forall_app. split; [exact W1 | ].
    constructor; [exists a; auto | exact W2']. }
  split; [apply (updatedEvents_view _ _ _ _ _ _ Wf U) | ].
  split.
  - rewrite view_app, view_cons, !view_extend by assumption.
    f_equal. f_equal. simpl. rewrite nth_error_app2 by lia.
    rewrite Nat.sub_diag. reflexivity.
  - split; [apply view_extend; exact Wf | ].
    split; [reflexivity | ].
    split; [intros cs C; simpl; rewrite C; reflexivity | ].
    split; [intros C; simpl; rewrite C; reflexivity | ].
    repeat split.
Qed.

(** ** The theorems at the values of the examples *)

Lemma lower_keeps_empty_example : @lower_keeps_empty example_host.
Proof.
  intro s. destruct s; simpl; split; intro E; congruence.
Qed.

Lemma filteredEvents_keeps_witness :
  @lower_keeps_empty example_host /\
  In recent_event
     (@filteredEvents example_host [undated_event; recent_event] "conf" "") /\
  ~ In undated_event
       (@filteredEvents example_host [undated_event; recent_event] "conf" "").
Proof.
  split; [exact lower_keeps_empty_example | split].
  - apply (proj1 (@filteredEvents_keeps example_host
                    [undated_event; recent_event] "conf" "" recent_event
                    lower_keeps_empty_example)).
    split; [right; left; reflexivity | split].
    + right. exists techconf, "TechConf 2024".
      split; [reflexivity | split; reflexivity].
    + left. reflexivity.
  - intro I.
    apply (proj1 (@filteredEvents_keeps example_host
                    [undated_event; recent_event] "conf" "" undated_event
                    lower_keeps_empty_example)) in I.
    destruct I as (_ & [E | (e & nome & E & N & C)] & _); [discriminate | ].
    injection E as <-. injection N as <-. discriminate.
Defined.

Lemma calculateAverageRating_mean_witness :
  Event.comentarios hackathon
  = Some [Some (comment_rated 4); Some (comment_rated 2)] /\
  calculateAverageRating (Some hackathon) = Ok (Lit "3.0") /\
  exists t, calculateAverageRating (Some hackathon) = Ok (Lit (tenths t)) /\
            nearest_tenth 6 2 t.
Proof.
  split; [reflexivity | split].
  - apply (proj2 (proj2 (calculateAverageRating_mean hackathon _ eq_refl))
             (comment_rated 4) (comment_rated 2)); reflexivity.
  - apply (proj1 (proj2 (calculateAverageRating_mean hackathon _ eq_refl))
             [4; 2]).
    + discriminate.
    + constructor; [ | constructor; [ | constructor]].
      * exists (comment_rated 4). split; [reflexivity | right].
        split; [reflexivity | lia].
      * exists (comment_rated 2). split; [reflexivity | right].
        split; [reflexivity | lia].
    + reflexivity.
Defined.

Lemma dated_examples :
  Forall (@dated example_host) [undated_event; old_event; recent_event].
Proof.
  constructor; [ | constructor; [ | constructor; [ | constructor]]].
  - exists workshop, 0. split; reflexivity.
  - exists moon_party, (-86400000). split; reflexivity.
  - exists techconf, 1714521600000. split; reflexivity.
Qed.

Lemma sort_by_time_value_witness :
  Forall (@dated example_host) [undated_event; old_event; recent_event] /\
  exists sorted,
    @sort example_host [undated_event; old_event; recent_event] = Ok sorted /\
    @descending example_host sorted.
Proof.
  split; [exact dated_examples | ].
  destruct (@sort_by_time_value example_host
              [undated_event; old_event; recent_event] dated_examples)
    as (sorted & E & _ & D & _).
  exists sorted. split; [exact E | exact D].
Defined.

Lemma three_refs_well_formed : Heap.well_formed commented_events three_refs.
Proof.
  repeat constructor; eexists; (split; [reflexivity | simpl; lia]).
Qed.

Lemma updatedEvents_frame_witness :
  Heap.well_formed commented_events three_refs /\
  List.length
    (filter (has_id (IdNum 5)) (Heap.view commented_events three_refs))
  = 1%nat /\
  exists l1 a l2,
    three_refs = l1 ++ Some a :: l2 /\
    nth_error commented_events a = Some hackathon /\
    Heap.updatedEvents commented_events three_refs (IdNum 5)
      (Some (comment_rated 5))
    = Ok (commented_events
            ++ [withNewComment (Some (comment_rated 5)) hackathon],
          l1 ++ Some 3%nat :: l2) /\
    Event.comentarios (withNewComment (Some (comment_rated 5)) hackathon)
    = Some [Some (comment_rated 4); Some (comment_rated 2);
            Some (comment_rated 5)].
Proof.
  split; [exact three_refs_well_formed | split; [reflexivity | ]].
  destruct (updatedEvents_frame commented_events three_refs (IdNum 5)
              (Some (comment_rated 5)) three_refs_well_formed eq_refl)
    as (l1 & a & e & l2 & E1 & E2 & E3 & F & U & _ & _ & _ & _ & C & _).
  assert (Q : e = hackathon).
  { assert (I : In e commented_events) by (eapply nth_error_In; exact E2).
    destruct I as [<- | [<- | [<- | []]]];
      [discriminate | reflexivity | discriminate]. }
  subst e.
  exists l1, a, l2.
  split; [exact E1 | split; [exact E2 | split; [exact U | ]]].
  apply (C _ eq_refl).
Defined.

Lemma handleSubmitNewEvent_appends_witness :
  ok 201 = true /\
  exists event,
    events (@handleSubmitNewEvent example_host loaded_state
              (Responds 201 (Json (Some created_event))))
    = events loaded_state ++ [Some event] /\
    Event.comentarios event = Some [].
Proof.
  split; [reflexivity | ].
  destruct (@handleSubmitNewEvent_appends example_host loaded_state 201
              created_event eq_refl) as (event & E & _ & C & _).
  exists event. split; [exact E | apply C; reflexivity].
Defined.

Lemma loaded_state_run : @run example_host [loaded_state; initialState].
Proof.
  apply run_next; [apply run_initial | ].
  apply next_fetchData. reflexivity.
Qed.

Lemma loaded_state_selects :
  @next example_host [initialState] loaded_state selecting_state.
Proof.
  apply (next_toggleEvent _ _ recent_event).
  - reflexivity.
  - exists [recent_event; undated_event]. split; [reflexivity | ].
    left. reflexivity.
  - reflexivity.
Qed.

Lemma selecting_state_reachable : @reachable example_host selecting_state.
Proof.
  exists [loaded_state; initialState].
  apply run_next; [exact loaded_state_run | exact loaded_state_selects].
Qed.

Lemma event_form_run :
  @run example_host
    [event_form_state; setShowNewEventForm true loaded_state; loaded_state;
     initialState].
Proof.
  apply run_next; [apply run_next; [exact loaded_state_run | ] | ].
  - apply next_openNewEventForm. reflexivity.
  - apply (next_setNewEvent _ _ filled_event); reflexivity.
Qed.

Lemma event_form_submits : submitsNewEvent event_form_state.
Proof. repeat split; discriminate. Qed.






Lemma failure_sets_error_witness :
  @failed value (Responds 503 (Json None)) /\
  error (@handleSubmitNewEvent example_host loaded_state
           (Responds 503 (Json None)))
  = Some "Failed to create event" /\
  @failed value (Rejects (Error "Failed to fetch")) /\
  error (@handleSubmitNewEvent example_host loaded_state
           (Rejects (Error "Failed to fetch")))
  = Some "Failed to fetch".
Proof.
  split; [left; reflexivity | split; [ | split; [exact I | ]]].
  - destruct (proj1 (proj2 (@failure_sets_error example_host loaded_state))
                (Responds 503 (Json None)) (or_introl eq_refl))
      as (m & M & E).
    rewrite E. exact (eq_sym M).
  - destruct (proj1 (proj2 (@failure_sets_error example_host loaded_state))
                (Rejects (Error "Failed to fetch")) I)
      as (m & M & E).
    rewrite E. exact (eq_sym M).
Defined.

Lemma failure_keeps_events_witness :
  @failed (option Comment.t) (Responds 404 (Json None)) /\
  events (@handleSubmitNewComment example_host selecting_state (IdNum 3)
            (Responds 404 (Json None)))
  = events selecting_state.
Proof.
  split; [left; reflexivity | ].
  apply (proj2 (@failure_keeps_events example_host selecting_state)
           (IdNum 3) (Responds 404 (Json None)) (or_introl eq_refl)).
Defined.

Lemma calculateAverageRating_total_witness :
  Event.comentarios created_event = None /\
  calculateAverageRating (Some created_event) = Ok (Lit "N/A") /\
  exists t, calculateAverageRating (Some hackathon) = Ok t.
Proof.
  split; [reflexivity | split].
  - apply (proj1 (proj2 calculateAverageRating_total) created_event).
    reflexivity.
  - apply (proj2 (proj2 (proj2 calculateAverageRating_total)) hackathon
             [Some (comment_rated 4); Some (comment_rated 2)]).
    + reflexivity.
    + repeat constructor; discriminate.
Defined.

(** ** The operations on the values of the examples *)

Example filteredEvents_by_name :
  @filteredEvents example_host [undated_event; old_event; recent_event]
    "conf" ""
  = [recent_event].
Proof. reflexivity. Qed.

Example filteredEvents_by_date :
  @filteredEvents example_host [undated_event; old_event; recent_event]
    "" "2024-05-01"
  = [undated_event; recent_event].
Proof. reflexivity. Qed.

Example sortedEvents_all :
  @sortedEvents example_host [undated_event; old_event; recent_event] "" ""
  = Ok [recent_event; undated_event; old_event].
Proof. reflexivity. Qed.

Example sortedEvents_null_entry :
  @sortedEvents example_host [None; recent_event] "" ""
  = Throw (TypeError "data").
Proof. reflexivity. Qed.

Example calculateAverageRating_hackathon :
  calculateAverageRating (Some hackathon) = Ok (Lit "3.0").
Proof. reflexivity. Qed.

Example handleSubmitNewComment_selected :
  selectedEvent
    (@handleSubmitNewComment example_host selecting_state (IdNum 3)
       (Responds 201 (Json (Some (comment_rated 5)))))
  = Some (Event.with_comentarios techconf [Some (comment_rated 5)]).
Proof. reflexivity. Qed.

Example updatedEvents_second_of_three :
  Heap.updatedEvents three_events three_refs (IdNum 2) (Some (comment_rated 5))
  = Ok (three_events
          ++ [Event.with_comentarios moon_party [Some (comment_rated 5)]],
        [Some 0%nat; Some 3%nat; Some 2%nat]).
Proof. reflexivity. Qed.

(** * Further properties of the component *)

(** ** The filter, composed and at dates that do not parse *)

Lemma filter_filter {A : Type} (f g : A -> bool) (l : list A) :
  filter f (filter g l) = filter (fun x => g x && f x) l.
Proof.
  induction l as [ | x l IH]; simpl; [reflexivity | ].
  destruct (g x); simpl; [destruct (f x) | ]; rewrite IH; reflexivity.
Qed.

Section FilterMore.
Context `{Host}.

Lemma matchesSearch_empty (event : value) : matchesSearch "" event = true.
Proof. reflexivity. Qed.

Lemma matchesDateRange_empty (event : value) :
  matchesDateRange "" event = true.
Proof. unfold matchesDateRange. destruct (has_data event); reflexivity. Qed.

(** X1: filtering by a name and a date is filtering by the name and then by
    the date, or by the date and then by the name; and filtering the result
    again with the same terms changes nothing. *)
Theorem filteredEvents_compose (events : list value)
    (searchTerm dateFilter : string) :
  filteredEvents events searchTerm dateFilter
  = filteredEvents (filteredEvents events searchTerm "") "" dateFilter /\
  filteredEvents events searchTerm dateFilter
  = filteredEvents (filteredEvents events "" dateFilter) searchTerm "" /\
  filteredEvents (filteredEvents events searchTerm dateFilter)
    searchTerm dateFilter
  = filteredEvents events searchTerm dateFilter.
Proof.
  unfold filteredEvents. rewrite !filter_filter.
  split; [ | split]; apply filter_ext; intro event; unfold keep;
    rewrite ?matchesSearch_empty, ?matchesDateRange_empty.
  - rewrite andb_true_r. reflexivity.
  - rewrite andb_true_r. simpl. apply andb_comm.
  - destruct (matchesSearch searchTerm event),
      (matchesDateRange dateFilter event); reflexivity.
Qed.

(** X2: under a date filter that is not empty, an event whose own date does
    not parse is never kept; and when it is the filter that does not parse,
    the events kept are the events without a date that match the name. *)
Theorem filteredEvents_invalid_date (events : list value)
    (searchTerm dateFilter : string) :
  dateFilter <> "" ->
  (forall e d,
     Event.data e = Some d -> d <> "" -> parseISO d = None ->
     ~ In (Some e) (filteredEvents events searchTerm dateFilter)) /\
  (parseISO dateFilter = None ->
   forall event,
     In event (filteredEvents events searchTerm dateFilter) <->
     In event (filteredEvents events searchTerm "") /\ missing_date event).
Proof.
  intro N. apply truthy_string_true in N.
  assert (K : forall event,
            keep searchTerm dateFilter event
            = matchesSearch searchTerm event &&
              match has_data event with
              | Some d => isEqual (parseISO d) (parseISO dateFilter)
              | None => true
              end).
  { intro event. unfold keep, matchesDateRange. rewrite N. reflexivity. }
  split.
  - intros e d D Dn P I. unfold filteredEvents in I.
    apply filter_In in I. destruct I as [_ I]. rewrite K in I.
    apply andb_true_iff in I. destruct I as [_ I].
    unfold has_data in I. rewrite D in I.
    apply truthy_string_true in Dn. rewrite Dn, P in I. discriminate.
  - intros P event. unfold filteredEvents. rewrite !filter_In, K.
    unfold keep. rewrite matchesDateRange_empty, andb_true_r, andb_true_iff.
    rewrite <- has_data_None.
    destruct (has_data event) as [d | ]; rewrite ?P.
    + unfold isEqual. destruct (parseISO d); split.
      * intros (_ & _ & E). discriminate.
      * intros (_ & E). discriminate.
      * intros (_ & _ & E). discriminate.
      * intros (_ & E). discriminate.
    + tauto.
Qed.
End FilterMore.

(** ** The sort on lists with [null] entries *)

Section SortMore.
Context `{Host}.

Lemma dateOf_record (e : Event.t) : exists v, dateOf (Some e) = Ok v.
Proof.
  simpl. destruct (Event.data e) as [d | ]; [ | eexists; reflexivity].
  destruct (truthy_string d); eexists; reflexivity.
Qed.

Lemma insert_total (x : value) (l : list value) :
  x <> None -> Forall (fun v => v <> None) l ->
  exists l', insert x l = Ok l'.
Proof.
  intros X F. induction F as [ | y l Y _ IH]; [eexists; reflexivity | ].
  destruct x as [ex | ]; [ | congruence].
  destruct y as [ey | ]; [ | congruence].
  destruct (dateOf_record ex) as (vx & Ex).
  destruct (dateOf_record ey) as (vy & Ey).
  cbn [insert]. unfold sortCompare, compareFn. rewrite Ex, Ey. cbn [bind].
  destruct (0 <? _); [ | eexists; reflexivity].
  destruct IH as (l' & ->). eexists. reflexivity.
Qed.

Lemma sort_total (l : list value) :
  Forall (fun v => v <> None) l -> exists l', sort l = Ok l'.
Proof.
  induction 1 as [ | x l X F IH]; [eexists; reflexivity | ].
  destruct IH as (s & E). cbn [sort]. rewrite E. cbn [bind].
  apply insert_total; [exact X | ].
  apply Forall_forall. intros v I.
  apply (proj1 (Forall_forall _ _) F).
  apply (Permutation_in _ (Permutation_sym (sort_Permutation _ _ E)) I).
Qed.

Lemma null_entry_or_not (l : list value) :
  In None l \/ Forall (fun v => v <> None) l.
Proof.
  induction l as [ | x l [I | F]].
  - right. constructor.
  - left. right. exact I.
  - destruct x as [e | ].
    + right. constructor; [discriminate | exact F].
    + left. left. reflexivity.
Qed.

Lemma insert_null (l : list value) :
  l <> [] -> insert None l = Throw (TypeError "data").
Proof. destruct l; [congruence | reflexivity]. Qed.

Lemma insert_before_null (x : value) :
  insert x [None] = Throw (TypeError "data").
Proof.
  destruct x as [e | ]; [ | reflexivity].
  cbn [insert]. unfold sortCompare, compareFn.
  destruct (dateOf_record e) as (v & ->). reflexivity.
Qed.

Lemma sort_null_entry (l : list value) :
  (2 <= List.length l)%nat -> In None l ->
  sort l = Throw (TypeError "data").
Proof.
  induction l as [ | x l IH]; intros L I; [simpl in L; lia | ].
  cbn [sort].
  destruct (null_entry_or_not l) as [J | F].
  - destruct l as [ | y [ | z l]].
    + contradiction.
    + destruct J as [-> | []]. cbn [sort bind insert].
      apply insert_before_null.
    + rewrite IH; [reflexivity | simpl; lia | exact J].
  - destruct I as [-> | I].
    + destruct (sort_total l F) as (s & E). rewrite E. cbn [bind].
      apply insert_null. intros ->.
      apply sort_Permutation, Permutation_length in E.
      simpl in L, E. lia.
    + exfalso. apply (proj1 (Forall_forall _ _) F None I). reflexivity.
Qed.

(** X3: the sort raises exactly when the list has two entries or more and a
    [null] entry among them, and what it raises is the [TypeError] of
    reading [data]; otherwise it returns a permutation of the list. *)
Theorem sort_raises_iff (l : list value) :
  ((exists e, sort l = Throw e) <->
   (2 <= List.length l)%nat /\ In None l) /\
  (forall e, sort l = Throw e -> e = TypeError "data") /\
  (forall l', sort l = Ok l' -> Permutation l l').
Proof.
  assert (R : forall e, sort l = Throw e ->
                        (2 <= List.length l)%nat /\ In None l).
  { intros e E. destruct (null_entry_or_not l) as [I | F].
    - split; [ | exact I].
      destruct l as [ | x [ | y l]]; simpl; try lia.
      + discriminate.
      + simpl in E. discriminate.
    - destruct (sort_total l F) as (l' & E'). congruence. }
  split; [split | split].
  - intros (e & E). apply (R e E).
  - intros (L & I). exists (TypeError "data"). apply sort_null_entry; assumption.
  - intros e E. destruct (R e E) as (L & I).
    rewrite (sort_null_entry l L I) in E. congruence.
  - apply sort_Permutation.
Qed.

(** X4: in every state the component reaches, whatever the two filters hold,
    the sort of the filtered events returns, and what it returns is a
    permutation of the filtered events: the table never fails there. *)
Theorem sortedEvents_reachable (s : State) (searchTerm dateFilter : string) :
  reachable s ->
  exists l,
    sortedEvents (events s) searchTerm dateFilter = Ok l /\
    Permutation (filteredEvents (events s) searchTerm dateFilter) l.
Proof.
  intro R. pose proof (reachable_records s R) as F.
  unfold sortedEvents.
  destruct (sort_total (filteredEvents (events s) searchTerm dateFilter))
    as (l & E).
  - apply Forall_forall. intros v I.
    apply (proj1 (Forall_forall _ _) F).
    eapply filteredEvents_incl. exact I.
  - exists l. split; [exact E | apply sort_Permutation; exact E].
Qed.
End SortMore.

(** ** What every reachable state keeps *)


Section StateMore.
Context `{Host}.

(** X5: the first fetch is the only thing that happens while the component
    is loading: a reachable state with [loading] set is the initial state,
    and after any step [loading] is unset, for good. *)
Theorem loading_only_initially (s : State) :
  reachable s ->
  (loading s = true -> s = initialState) /\
  (forall s', step s s' -> loading s' = false) /\
  (forall s', step s s' -> loading s = true ->
              exists o, s' = fetchData initialState o).
Proof.
  intro R. split; [apply reachable_loading; exact R | split].
  - intros s' St. apply (step_loading s s' St).
  - intros s' St L. pose proof (reachable_loading s R L) as E. subst s.
    destruct St as (past & Rn & N).
    destruct (run_loading _ Rn _ _ eq_refl) as [(-> & _) | Q];
      [ | discriminate].
    destruct N as [o Ld | x Rd | x Rd | Rd | Rd _ | f Rd _ | event s' Rd Sh T
                  | e Rd _ | e Rd _ | e f Rd _ | render o I (Rd & _)
                  | render e o I (Rd & _)];
      try discriminate;
      try (destruct I as [<- | []]; discriminate).
    exists o. reflexivity.
Qed.

(** X6: an error that is shown ends the session for the user: from a
    reachable state whose [error] cell holds a message that is not empty no
    user action and no retry is possible. The only steps left are the
    responses to the forms submitted before, and after such a response the
    error is still shown, unless the response is a failure whose message is
    empty. *)
Theorem error_blocks (s s' : State) :
  reachable s ->
  truthy_opt_string (error s) = true ->
  step s s' ->
  ((exists render o,
      reachable render /\ submitsNewEvent render /\
      s' = resumeSubmitNewEvent render s o) \/
   (exists render e o,
      reachable render /\ submitsNewComment render e /\
      s' = resumeSubmitNewComment render s (Event.id e) o)) /\
  (truthy_opt_string (error s') = true \/ error s' = Some "").
Proof.
  intros R E (past & Rn & N).
  assert (M : forall m, truthy_opt_string (error (setError m s)) = true \/
                        error (setError m s) = Some "").
  { intros [ | a m]; [right | left]; reflexivity. }
  destruct N as [o Ld | x Rd | x Rd | Rd | Rd _ | f Rd _ | event s' Rd Sh T
                | e Rd _ | e Rd _ | e f Rd _ | render o I Sb
                | render e o I Sb];
    try (apply rendered_error in Rd; congruence).
  - pose proof (reachable_loading s R Ld) as Q. subst s. discriminate.
  - split.
    + left. exists render, o.
      split; [apply (run_In _ _ Rn I) | split; [exact Sb | reflexivity]].
    + destruct (resumeSubmitNewEvent_cases render s o)
        as [(m & ->) | (ev & ->)]; [apply M | left; exact E].
  - split.
    + right. exists render, e, o.
      split; [apply (run_In _ _ Rn I) | split; [exact Sb | reflexivity]].
    + destruct (resumeSubmitNewComment_cases render s (Event.id e) o)
        as [(m & ->) | (c & updated & _ & ->)]; [apply M | left].
      destruct (selectedEvent render) as [sel | ]; [ | exact E].
      destruct (strict_eq (Event.id sel) (Event.id e)); exact E.
Qed.

(** X7: in every reachable state each entry of the collection is an event
    record that has a comment sequence, and so has the selected event: the
    defaults [event.comentarios || []] of the handlers and the guard of the
    average rating against a missing sequence are never needed there. *)
Theorem reachable_events_normalised (s : State) :
  reachable s ->
  Forall normalised (events s) /\
  (forall sel, selectedEvent s = Some sel ->
               exists cs, Event.comentarios sel = Some cs) /\
  (forall event, shown s event -> normalised event).
Proof.
  intro R. destruct (reachable_all_normalised s R) as (F & S).
  split; [exact F | split; [exact S | ]].
  intros event Sh. apply (proj1 (Forall_forall _ _) F).
  apply shown_In. exact Sh.
Qed.





(** X11: the first fetch stores all the events of the body or none: when
    every entry of the array is a record the collection is these records
    with [comentarios] defaulted, in the order of the body; when an entry is
    [null] no event is stored and the [TypeError] of reading [comentarios]
    is the error shown. Either way loading is over. *)
Theorem fetchData_all_or_nothing (s : State) (status : Z)
    (eventsData : list value) :
  ok status = true ->
  let s' := fetchData s (Responds status (Json (Some eventsData))) in
  loading s' = false /\
  (Forall (fun event => event <> None) eventsData ->
   events s' = map (option_map defaulted) eventsData /\
   error s' = error s) /\
  (In None eventsData ->
   events s' = events s /\
   error s' = Some (typeErrorMessage "comentarios")).
Proof.
  intros S s'. unfold s', fetchData, receive. rewrite S. cbn [negb bind].
  unfold eventsWithComments.
  split; [ | split].
  - destruct (map_result eventWithComments eventsData); reflexivity.
  - intro F.
    assert (M : map_result eventWithComments eventsData
                = Ok (map (option_map defaulted) eventsData)).
    { induction F as [ | x l X _ IH]; [reflexivity | ].
      destruct x as [e | ]; [ | congruence].
      cbn [map_result eventWithComments bind]. rewrite IH. reflexivity. }
    rewrite M. auto.
  - intro I.
    assert (M : map_result eventWithComments eventsData
                = Throw (TypeError "comentarios")).
    { induction eventsData as [ | x l IH]; [contradiction | ].
      destruct x as [e | ]; [ | reflexivity].
      destruct I as [E | I]; [discriminate | ].
      cbn [map_result eventWithComments bind]. rewrite (IH I). reflexivity. }
    rewrite M. auto.
Qed.

(** X12: expanding a row twice: after two [toggleEvent] on the same event it
    is the selected event, and the expanded row is what it was before if
    that was this event's row, and none otherwise; the second call undoes
    what the first did to the expansion, except on an event whose id is
    [null], whose two calls both leave [null]; the collection is
    untouched. *)
Theorem toggleEvent_twice (s s1 s2 : State) (e : Event.t) :
  toggleEvent s (Some e) = Ok s1 ->
  toggleEvent s1 (Some e) = Ok s2 ->
  selectedEvent s2 = Some e /\
  (expandedEventId s1 <> expandedEventId s2 <-> Event.id e <> IdNull) /\
  expandedEventId s2
  = (if strict_eq (expandedEventId s) (Event.id e)
     then Event.id e else IdNull) /\
  events s2 = events s.
Proof.
  intros T1 T2. simpl in T1. injection T1 as <-.
  simpl in T2. injection T2 as <-. simpl.
  unfold strict_eq.
  destruct (Id_eq_dec (expandedEventId s) (Event.id e)) as [X | X].
  - destruct (Id_eq_dec IdNull (Event.id e)) as [N | N].
    + repeat split; try congruence.
    + repeat split; try congruence.
  - destruct (Id_eq_dec (Event.id e) (Event.id e)) as [_ | N];
      [ | congruence].
    repeat split; try congruence.
Qed.
End StateMore.

(** ** The average rating, its range and its cell *)

Lemma calculateAverageRating_nonempty (e : Event.t)
    (cs : list (option Comment.t)) :
  Event.comentarios e = Some cs -> cs <> [] ->
  calculateAverageRating (Some e)
  = (sum <- reduce accumulate cs (of_Z 0) ;;
     Ok (toFixed1 (div sum (of_Z (Z.of_nat (List.length cs)))))).
Proof.
  intros E N. destruct cs as [ | c cs]; [congruence | ].
  apply calculateAverageRating_unfold. exact E.
Qed.

Lemma average_nearest (e : Event.t) (cs : list (option Comment.t))
    (rs : list Z) :
  Event.comentarios e = Some cs -> cs <> [] ->
  Forall2 rating_of cs rs ->
  Z.of_nat (List.length cs) < 2 ^ 32 ->
  exists t,
    calculateAverageRating (Some e) = Ok (Lit (tenths t)) /\
    nearest_tenth (total rs) (Z.of_nat (List.length cs)) t.
Proof.
  intros E N F L.
  rewrite (calculateAverageRating_nonempty e cs E N).
  pose proof (total_range _ _ F) as T.
  set (n := Z.of_nat (List.length cs)) in *.
  assert (Npos : 0 < n).
  { unfold n. destruct cs; [congruence | simpl List.length; lia]. }
  change (2 ^ 32) with 4294967296 in L.
  rewrite (reduce_accumulate _ _ F 0)
    by (change (2 ^ 53) with 9007199254740992; lia).
  cbn [bind]. rewrite Z.add_0_l.
  destruct (Z.eq_dec (total rs) 0) as [Z0 | NZ].
  - rewrite Z0. exists 0. split.
    + rewrite of_Z_0, of_Z_norm
        by (change (2 ^ 53) with 9007199254740992; lia).
      reflexivity.
    + unfold nearest_tenth. simpl. lia.
  - rewrite !of_Z_norm by (change (2 ^ 53) with 9007199254740992; lia).
    destruct (div_norm (total rs) n) as (mf & p & D & P & M & R).
    + change (2 ^ 52) with 4503599627370496. lia.
    + change (2 ^ 53) with 9007199254740992. lia.
    + rewrite D.
      destruct (tenths_nearest mf p (total rs) n) as [X Y];
        try assumption; try lia.
      exists ((20 * Z.pos mf + 2 ^ p) / 2 ^ (1 + p)).
      rewrite X. split; [reflexivity | exact Y].
Qed.

(** X13: the average of ratings in the range 0..5 is shown in the range: the
    text is the digits of [t / 10] for an integer [t] from 0 to 50, so from
    ["0.0"] to ["5.0"]. *)
Theorem average_in_range (e : Event.t) (cs : list (option Comment.t))
    (rs : list Z) :
  Event.comentarios e = Some cs -> cs <> [] ->
  Forall2 rating_of cs rs ->
  Z.of_nat (List.length cs) < 2 ^ 32 ->
  exists t,
    calculateAverageRating (Some e) = Ok (Lit (tenths t)) /\
    0 <= t <= 50.
Proof.
  intros E N F L.
  destruct (average_nearest e cs rs E N F L) as (t & C & Nt).
  exists t. split; [exact C | ].
  pose proof (total_range _ _ F) as T.
  unfold nearest_tenth in Nt.
  set (n := Z.of_nat (List.length cs)) in *.
  assert (Npos : 0 < n).
  { unfold n. destruct cs; [congruence | simpl List.length; lia]. }
  split.
  - apply Z.nlt_ge. intro Neg. assert (t * n <= -1 * n) by nia. lia.
  - apply Z.nlt_ge. intro Big. assert (51 * n <= t * n) by nia. lia.
Qed.

Lemma ratings_all_equal (r : Z) (cs : list (option Comment.t)) :
  0 <= r <= 5 ->
  Forall (fun com => exists c, com = Some c /\
                     Comment.classificacao c = Some (of_Z r)) cs ->
  exists rs, Forall2 rating_of cs rs /\
             total rs = r * Z.of_nat (List.length cs).
Proof.
  intros R. induction 1 as [ | com cs (c & -> & C) _ (rs & F & T)].
  - exists []. split; [constructor | simpl; lia].
  - exists (r :: rs). split.
    + constructor; [ | exact F]. exists c. split; [reflexivity | ]. right. auto.
    + cbn [total fold_right]. fold (total rs). rewrite T.
      simpl List.length. lia.
Qed.

(** X14: when all the comments of an event carry the same rating [r] of the
    range 0..5, the average shown is [r] itself with one decimal: the digits
    of [r] followed by [".0"]. *)
Theorem average_of_equal_ratings (e : Event.t)
    (cs : list (option Comment.t)) (r : Z) :
  Event.comentarios e = Some cs -> cs <> [] ->
  0 <= r <= 5 ->
  Forall (fun com => exists c, com = Some c /\
                     Comment.classificacao c = Some (of_Z r)) cs ->
  Z.of_nat (List.length cs) < 2 ^ 32 ->
  calculateAverageRating (Some e) = Ok (Lit (decimal r ++ ".0")%string).
Proof.
  intros E N R A L.
  destruct (ratings_all_equal r cs R A) as (rs & F & T).
  destruct (average_nearest e cs rs E N F L) as (t & C & Nt).
  unfold nearest_tenth in Nt. rewrite T in Nt.
  set (n := Z.of_nat (List.length cs)) in *.
  assert (Npos : 0 < n).
  { unfold n. destruct cs; [congruence | simpl List.length; lia]. }
  assert (Et : t = 10 * r).
  { replace (10 * (r * n) - t * n) with ((10 * r - t) * n) in Nt by ring.
    rewrite Z.abs_mul, (Z.abs_eq n) in Nt by lia.
    assert (Z.abs (10 * r - t) < 1) by nia. lia. }
  rewrite C, Et. unfold tenths.
  rewrite (Z.mul_comm 10 r), Z.div_mul, Z.mod_mul by lia.
  reflexivity.
Qed.

Lemma reduce_accumulate_null (l : list (option Comment.t)) :
  forall acc,
    reduce accumulate (l ++ [None]) acc = Throw (TypeError "classificacao").
Proof.
  induction l as [ | com l IH]; intro acc; [reflexivity | ].
  destruct com as [c | ]; [ | reflexivity].
  cbn [app reduce accumulate get_classificacao bind]. apply IH.
Qed.

(** X15: a creation that succeeds with a [null] body breaks the rating of
    the events it touches: in the updated collection, the average rating of
    every event of the commented id raises the [TypeError] of reading
    [classificacao]. *)
Theorem null_comment_breaks_rating (l l' : list value) (eventId : Id)
    (e : Event.t) :
  updatedEvents l eventId None = Ok l' ->
  In (Some e) l' -> Event.id e = eventId ->
  calculateAverageRating (Some e) = Throw (TypeError "classificacao").
Proof.
  intros U I Ide. apply map_result_Ok in U.
  destruct (Forall2_In_r _ _ _ _ U I) as (x & _ & W).
  destruct x as [e0 | ]; simpl in W; [ | discriminate].
  unfold strict_eq in W.
  destruct (Id_eq_dec (Event.id e0) eventId) as [Q | Q].
  - injection W as <-.
    rewrite (calculateAverageRating_nonempty _
               (or_empty (Event.comentarios e0) ++ [None])).
    + rewrite reduce_accumulate_null. reflexivity.
    + reflexivity.
    + destruct (or_empty (Event.comentarios e0)); discriminate.
  - injection W as <-. congruence.
Qed.

Lemma reduce_accumulate_null_entry (l1 l2 : list (option Comment.t)) :
  forall acc,
    reduce accumulate (l1 ++ None :: l2) acc
    = Throw (TypeError "classificacao").
Proof.
  induction l1 as [ | com l1 IH]; intro acc; [reflexivity | ].
  destruct com as [c | ]; [ | reflexivity].
  cbn [app reduce accumulate get_classificacao bind]. apply IH.
Qed.

(** X19: on an event that has a comment sequence the average rating raises
    exactly when the sequence holds a [null] entry, wherever it is and
    whatever the other comments are, and what it raises is the [TypeError]
    of reading [classificacao]. *)
Theorem calculateAverageRating_raises_iff (e : Event.t)
    (cs : list (option Comment.t)) :
  Event.comentarios e = Some cs ->
  ((exists x, calculateAverageRating (Some e) = Throw x) <-> In None cs) /\
  (In None cs ->
   calculateAverageRating (Some e) = Throw (TypeError "classificacao")).
Proof.
  intro E.
  assert (R : In None cs ->
              calculateAverageRating (Some e)
              = Throw (TypeError "classificacao")).
  { intro I. destruct (in_split _ _ I) as (l1 & l2 & ->).
    rewrite (calculateAverageRating_nonempty e _ E)
      by (destruct l1; discriminate).
    rewrite reduce_accumulate_null_entry. reflexivity. }
  split; [split | exact R].
  - intros (x & X).
    assert (D : In None cs \/ Forall (fun com => com <> None) cs).
    { clear. induction cs as [ | com cs [I | F]].
      - right. constructor.
      - left. right. exact I.
      - destruct com as [c | ]; [right | left; left; reflexivity].
        constructor; [discriminate | exact F]. }
    destruct D as [I | F]; [exact I | ].
    destruct cs as [ | c cs].
    + unfold calculateAverageRating, get_comentarios in X. rewrite E in X.
      discriminate.
    + rewrite (calculateAverageRating_nonempty e _ E) in X by discriminate.
      destruct (reduce_accumulate_Ok (c :: cs) F (of_Z 0)) as [sum S].
      rewrite S in X. discriminate.
  - intro I. eexists. apply R. exact I.
Qed.

Lemma decimal_not_N (n : Z) (rest : string) :
  (decimal n ++ rest)%string <> "N/A".
Proof.
  unfold decimal, NilZero.string_of_uint.
  destruct (N.to_uint (Z.to_N n)); simpl; discriminate.
Qed.

Lemma toFixed1_available (x : number) : is_not_available (toFixed1 x) = false.
Proof.
  assert (T : forall sign n, sign = "" \/ sign = "-" ->
              String.eqb (sign ++ tenths n) "N/A" = false).
  { intros sign n S. apply String.eqb_neq. destruct S as [-> | ->].
    - apply decimal_not_N.
    - discriminate. }
  destruct x as [ | [ | ] | | [ | ] m e]; try reflexivity; unfold toFixed1;
    destruct (0 <=? e);
    match goal with
    | |- context [if ?c then _ else _] => destruct c
    end; try reflexivity; cbn [is_not_available];
    first [apply (T "") | apply (T "-")]; auto.
Qed.

(** X16: the rating cell shows ["N/A"] exactly when there is nothing to
    average: for a [null] event, and for an event whose comment sequence is
    empty; for an event with comment records it shows the average followed
    by ["/5"], never ["N/A"]. *)
Theorem ratingCell_not_available :
  ratingCell None = Ok (Plain "N/A") /\
  (forall e, Event.comentarios e = Some [] ->
             ratingCell (Some e) = Ok (Plain "N/A")) /\
  (forall e cs,
     Event.comentarios e = Some cs -> cs <> [] ->
     Forall (fun com => com <> None) cs ->
     exists x, calculateAverageRating (Some e) = Ok (toFixed1 x) /\
               ratingCell (Some e) = Ok (OutOfFive (toFixed1 x))).
Proof.
  split; [reflexivity | split].
  - intros e E. unfold ratingCell, calculateAverageRating, get_comentarios.
    rewrite E. reflexivity.
  - intros e cs E N F. unfold ratingCell.
    rewrite (calculateAverageRating_nonempty e cs E N).
    destruct (reduce_accumulate_Ok cs F (of_Z 0)) as (sum & ->).
    cbn [bind]. rewrite toFixed1_available. cbn [negb bind].
    eexists. split; reflexivity.
Qed.

(** X17: the duration cell never shows its alternative text: the
    concatenation holds a space, so it is never falsy, and the cell is the
    two properties as strings around a space, whatever they are. *)
Theorem durationCell_never_falls_back (duracao_qtd duracao_tipo : string) :
  durationCell duracao_qtd duracao_tipo
  = (duracao_qtd ++ " " ++ duracao_tipo)%string /\
  durationCell "undefined" "undefined" = "undefined undefined".
Proof.
  split; [ | reflexivity].
  unfold durationCell. destruct duracao_qtd; reflexivity.
Qed.

(** ** The sort, determined by its result's order *)

Section SortUnique.
Context `{Host}.

Lemma descending_StronglySorted (l : list value) :
  descending l -> StronglySorted ge_key l.
Proof.
  induction l as [ | x l IH]; intro D; constructor.
  - apply IH. intros a b (l1 & l2 & l3 & ->).
    apply D. exists (x :: l1), l2, l3. reflexivity.
  - apply Forall_forall. intros b I.
    destruct (in_split _ _ I) as (l2 & l3 & ->).
    apply D. exists [], l2, l3. reflexivity.
Qed.

(** X18: on event records whose dates are valid the result of the sort is
    the only arrangement that is newest first and keeps the events of equal
    time value in the order of the input: any stable sort gives it. *)
Theorem stable_descending_is_sort (events sorted : list value) :
  Forall dated events ->
  descending sorted ->
  same_order_of_ties events sorted ->
  sort events = Ok sorted.
Proof.
  intros D S T.
  destruct (sort_dated events D) as (l' & E & _ & S' & T').
  rewrite E. f_equal.
  apply descending_stable_unique;
    [exact S' | apply descending_StronglySorted; exact S | ].
  intro k. rewrite (T k), (T' k). reflexivity.
Qed.
End SortUnique.

(** ** The further properties at the values of the examples *)

Lemma loaded_state_reachable : @reachable example_host loaded_state.
Proof. eexists. exact loaded_state_run. Qed.

Lemma failed_state_run :
  @run example_host
    [failed_state; event_form_state; setShowNewEventForm true loaded_state;
     loaded_state; initialState].
Proof.
  apply run_next; [exact event_form_run | ].
  apply (next_handleSubmitNewEvent _ _ event_form_state
           (Responds 500 (JsonFails (Error "")))).
  - left. reflexivity.
  - exact event_form_submits.
Qed.

Lemma failed_state_reachable : @reachable example_host failed_state.
Proof. eexists. exact failed_state_run. Qed.

(** The response to the second submission arrives once the error is shown. *)
Lemma failed_state_resumes :
  @step example_host failed_state
    (@resumeSubmitNewEvent example_host event_form_state failed_state
       (Responds 201 (Json (Some created_event)))).
Proof.
  eexists. split; [exact failed_state_run | ].
  apply next_handleSubmitNewEvent;
    [right; left; reflexivity | exact event_form_submits].
Qed.

Lemma filteredEvents_invalid_date_witness :
  "amanha" <> "" /\
  (In undated_event
      (@filteredEvents example_host [undated_event; recent_event] "" "amanha")
   <-> In undated_event
          (@filteredEvents example_host [undated_event; recent_event] "" "")
       /\ missing_date undated_event).
Proof.
  split; [discriminate | ].
  apply (proj2 (@filteredEvents_invalid_date example_host
                  [undated_event; recent_event] "" "amanha"
                  ltac:(discriminate)) eq_refl undated_event).
Defined.

Lemma sortedEvents_reachable_witness :
  @reachable example_host selecting_state /\
  exists l,
    @sortedEvents example_host (events selecting_state) "conf" "" = Ok l /\
    Permutation
      (@filteredEvents example_host (events selecting_state) "conf" "") l.
Proof.
  split; [exact selecting_state_reachable | ].
  apply (@sortedEvents_reachable example_host selecting_state "conf" ""
           selecting_state_reachable).
Defined.

Lemma loading_only_initially_witness :
  @reachable example_host loaded_state /\
  forall s', @step example_host loaded_state s' -> loading s' = false.
Proof.
  split; [exact loaded_state_reachable | ].
  apply (proj1 (proj2 (@loading_only_initially example_host loaded_state
                         loaded_state_reachable))).
Defined.

Lemma error_blocks_witness :
  @reachable example_host failed_state /\
  truthy_opt_string (error failed_state) = true /\
  @step example_host failed_state
    (@resumeSubmitNewEvent example_host event_form_state failed_state
       (Responds 201 (Json (Some created_event)))) /\
  (truthy_opt_string
     (error (@resumeSubmitNewEvent example_host event_form_state failed_state
               (Responds 201 (Json (Some created_event)))))
   = true \/
   error (@resumeSubmitNewEvent example_host event_form_state failed_state
            (Responds 201 (Json (Some created_event))))
   = Some "").
Proof.
  split; [exact failed_state_reachable | split; [reflexivity | ]].
  split; [exact failed_state_resumes | ].
  apply (proj2 (@error_blocks example_host failed_state _
                  failed_state_reachable eq_refl failed_state_resumes)).
Defined.

Lemma reachable_events_normalised_witness :
  @reachable example_host selecting_state /\
  Forall normalised (events selecting_state).
Proof.
  split; [exact selecting_state_reachable | ].
  apply (proj1 (@reachable_events_normalised example_host selecting_state
                  selecting_state_reachable)).
Defined.


Lemma fetchData_all_or_nothing_witness :
  ok 200 = true /\
  events (@fetchData example_host initialState
            (Responds 200 (Json (Some [undated_event; None]))))
  = [] /\
  error (@fetchData example_host initialState
           (Responds 200 (Json (Some [undated_event; None]))))
  = Some (@typeErrorMessage example_host "comentarios").
Proof.
  split; [reflexivity | ].
  apply (proj2 (proj2 (@fetchData_all_or_nothing example_host initialState
                         200 [undated_event; None] eq_refl))).
  right. left. reflexivity.
Defined.

Lemma toggleEvent_twice_witness :
  toggleEvent loaded_state recent_event = Ok selecting_state /\
  toggleEvent selecting_state recent_event
  = Ok (setSelectedEvent recent_event
          (setExpandedEventId IdNull selecting_state)) /\
  selectedEvent (setSelectedEvent recent_event
                   (setExpandedEventId IdNull selecting_state))
  = recent_event /\
  (expandedEventId selecting_state
   <> expandedEventId (setSelectedEvent recent_event
                         (setExpandedEventId IdNull selecting_state))
   <-> Event.id techconf <> IdNull).
Proof.
  split; [reflexivity | split; [reflexivity | ]].
  destruct (toggleEvent_twice loaded_state selecting_state
              _ techconf eq_refl eq_refl) as (S & X & _).
  split; [exact S | exact X].
Defined.

Lemma hackathon_ratings :
  Forall2 rating_of [Some (comment_rated 4); Some (comment_rated 2)] [4; 2].
Proof.
  constructor; [ | constructor; [ | constructor]].
  - exists (comment_rated 4). split; [reflexivity | right].
    split; [reflexivity | lia].
  - exists (comment_rated 2). split; [reflexivity | right].
    split; [reflexivity | lia].
Qed.

Lemma average_in_range_witness :
  Event.comentarios hackathon
  = Some [Some (comment_rated 4); Some (comment_rated 2)] /\
  Forall2 rating_of [Some (comment_rated 4); Some (comment_rated 2)] [4; 2] /\
  exists t,
    calculateAverageRating (Some hackathon) = Ok (Lit (tenths t)) /\
    0 <= t <= 50.
Proof.
  split; [reflexivity | split; [exact hackathon_ratings | ]].
  apply (average_in_range hackathon _ [4; 2] eq_refl
           ltac:(discriminate) hackathon_ratings eq_refl).
Defined.

Lemma average_of_equal_ratings_witness :
  Event.comentarios steady_event
  = Some [Some (comment_rated 4); Some (comment_rated 4);
          Some (comment_rated 4)] /\
  0 <= 4 <= 5 /\
  calculateAverageRating (Some steady_event) = Ok (Lit "4.0").
Proof.
  split; [reflexivity | split; [lia | ]].
  apply (average_of_equal_ratings steady_event _ 4 eq_refl
           ltac:(discriminate) ltac:(lia)).
  - repeat constructor; exists (comment_rated 4); split; reflexivity.
  - reflexivity.
Defined.

Lemma null_comment_breaks_rating_witness :
  updatedEvents [undated_event; recent_event] (IdNum 3) None
  = Ok [undated_event; Some (withNewComment None techconf)] /\
  calculateAverageRating (Some (withNewComment None techconf))
  = Throw (TypeError "classificacao").
Proof.
  split; [reflexivity | ].
  apply (null_comment_breaks_rating [undated_event; recent_event]
           [undated_event; Some (withNewComment None techconf)] (IdNum 3)
           (withNewComment None techconf) eq_refl).
  - right. left. reflexivity.
  - reflexivity.
Defined.

Lemma calculateAverageRating_raises_iff_witness :
  Event.comentarios interrupted_event
  = Some [Some (comment_rated 4); None; Some (comment_rated 2)] /\
  In None [Some (comment_rated 4); None; Some (comment_rated 2)] /\
  calculateAverageRating (Some interrupted_event)
  = Throw (TypeError "classificacao").
Proof.
  assert (I : In (@None Comment.t)
                 [Some (comment_rated 4); None; Some (comment_rated 2)])
    by (right; left; reflexivity).
  split; [reflexivity | split; [exact I | ]].
  apply (proj2 (calculateAverageRating_raises_iff interrupted_event _ eq_refl)
           I).
Defined.

Lemma ratingCell_not_available_witness :
  Event.comentarios workshop = Some [] /\
  ratingCell (Some workshop) = Ok (Plain "N/A").
Proof.
  split; [reflexivity | ].
  apply (proj1 (proj2 ratingCell_not_available) workshop eq_refl).
Defined.

Lemma sorted_examples_descending :
  @descending example_host [recent_event; undated_event; old_event].
Proof.
  apply StronglySorted_descending.
  repeat constructor; unfold ge_key; simpl; lia.
Qed.

Lemma sorted_examples_same_order :
  @same_order_of_ties example_host
    [undated_event; old_event; recent_event]
    [recent_event; undated_event; old_event].
Proof.
  intro k. cbn [filter].
  change (@key example_host recent_event) with 1714521600000.
  change (@key example_host undated_event) with 0.
  change (@key example_host old_event) with (-86400000).
  destruct (Z.eqb_spec 1714521600000 k), (Z.eqb_spec 0 k),
    (Z.eqb_spec (-86400000) k); try reflexivity; lia.
Qed.

Lemma stable_descending_is_sort_witness :
  Forall (@dated example_host) [undated_event; old_event; recent_event] /\
  @descending example_host [recent_event; undated_event; old_event] /\
  @sort example_host [undated_event; old_event; recent_event]
  = Ok [recent_event; undated_event; old_event].
Proof.
  split; [exact dated_examples | split; [exact sorted_examples_descending | ]].
  apply (@stable_descending_is_sort example_host _ _ dated_examples
           sorted_examples_descending sorted_examples_same_order).
Defined.
